(** * Smart Bookmark App: the client-side bookmark list and its handlers

    A shallow embedding of [src/components/DashboardClient.tsx] (the
    component holding the bookmark list, its realtime handlers, the add and
    delete handlers and the search filter) and of the dashboard page that
    seeds it, followed by the properties of the list that the design
    document states; then of the bookmark card and of the table with its
    row-level policies, with what the code shows of them.

    Conventions.
    - A JavaScript string is a [string]: a sequence of code units, here the
      first 256 code points (Latin-1), on which [trim] is written out as
      ECMAScript defines it.  The search filter, whose result depends on
      how arbitrary text is lower-cased, is also given on sequences of
      16-bit code units ([Utf16]), with [toLowerCase] a parameter.
    - [created_at] is the instant of the TIMESTAMPTZ column as an integer.
      The client carries it as text and the list logic never reads it; only
      the server's ORDER BY does.
    - React state is passed explicitly: [setBookmarks (fun prev => ...)] is
      the function from the previous list to the next one. *)

From Stdlib Require Import List String Ascii ZArith Bool Arith Lia.
From Stdlib Require Import Sorted Permutation DecimalString.
Import ListNotations.

Local Open Scope string_scope.
Local Open Scope nat_scope.
Local Open Scope list_scope.

(* ================================================================== *)
(** ** JavaScript string primitives used by the component *)

Module Js.

(** Code unit of a character. *)
Definition code (c : ascii) : nat := nat_of_ascii c.

(** [String.prototype.toLowerCase] on a text of Latin-1 code units, where
    it works unit by unit: A-Z, and the accented capitals U+00C0-U+00DE
    except the multiplication sign U+00D7, move up by 32; every other code
    unit is its own lower case.  (On other text the platform's function
    looks at the context and may change the length; nothing below relies
    on how this one is computed, and the search on arbitrary text is in
    [Utf16], with the function as a parameter.) *)
Definition lower_char (c : ascii) : ascii :=
  let n := code c in
  if ((65 <=? n) && (n <=? 90))
     || ((192 <=? n) && (n <=? 222) && negb (n =? 215))
  then ascii_of_nat (n + 32)
  else c.

Fixpoint toLowerCase (s : string) : string :=
  match s with
  | EmptyString => EmptyString
  | String c s' => String (lower_char c) (toLowerCase s')
  end.

(** [s.startsWith(p)]. *)
Fixpoint startsWith (s p : string) {struct p} : bool :=
  match p, s with
  | EmptyString, _ => true
  | String _ _, EmptyString => false
  | String b p', String a s' => Ascii.eqb a b && startsWith s' p'
  end.

(** [s.includes(sub)]: [sub] occurs in [s] at some position. *)
Fixpoint includes (s sub : string) : bool :=
  startsWith s sub ||
  match s with
  | EmptyString => false
  | String _ s' => includes s' sub
  end.

(** White space and line terminators removed by [trim], among the
    Latin-1 code units: TAB, LF, VT, FF, CR, SP and NBSP. *)
Definition is_white (c : ascii) : bool :=
  let n := code c in
  ((9 <=? n) && (n <=? 13)) || (n =? 32) || (n =? 160).

Fixpoint trimStart (s : string) : string :=
  match s with
  | EmptyString => EmptyString
  | String c s' => if is_white c then trimStart s' else s
  end.

(** Drops the trailing white space: a character is kept when something
    that is kept follows it, or when it is not white. *)
Fixpoint trimEnd (s : string) : string :=
  match s with
  | EmptyString => EmptyString
  | String c s' =>
      match trimEnd s' with
      | EmptyString => if is_white c then EmptyString else String c EmptyString
      | t => String c t
      end
  end.

Definition trim (s : string) : string := trimEnd (trimStart s).

(** Truthiness of a string: [!s] holds exactly for the empty string. *)
Definition is_empty (s : string) : bool :=
  match s with EmptyString => true | _ => false end.

End Js.

(* ================================================================== *)
(** ** The bookmark record *)

(** [interface Bookmark]. *)
Record Bookmark := mkBookmark {
  id : string;
  user_id : string;
  title : string;
  url : string;
  created_at : Z
}.

(** The [old] record of a DELETE change event, typed [Partial<Bookmark>]:
    every field may be missing (the server sends the whole previous row
    only under REPLICA IDENTITY FULL). *)
Record PartialBookmark := mkPartial {
  old_id : option string;
  old_user_id : option string;
  old_title : option string;
  old_url : option string;
  old_created_at : option Z
}.

(** [a !== b] where [a] is a string and [b] a string or [undefined]. *)
Definition strict_neq (a : string) (b : option string) : bool :=
  match b with
  | Some s => negb (String.eqb a s)
  | None => true
  end.

(* ================================================================== *)
(** ** The dashboard page: the snapshot that seeds the list *)

Module DashboardPage.

(** Row-level policy "Users can view their own bookmarks". *)
Definition visible (uid : string) (b : Bookmark) : bool :=
  String.eqb uid (user_id b).

(** ORDER BY created_at DESC, as a stable insertion sort. *)
Fixpoint insert_desc (b : Bookmark) (l : list Bookmark) : list Bookmark :=
  match l with
  | [] => [b]
  | x :: l' =>
      if (created_at x <=? created_at b)%Z then b :: l
      else x :: insert_desc b l'
  end.

Fixpoint order_desc (l : list Bookmark) : list Bookmark :=
  match l with
  | [] => []
  | b :: l' => insert_desc b (order_desc l')
  end.

(** [supabase.from("bookmarks").select("*").order("created_at",
    {ascending: false})] for the signed-in user over the table's rows. *)
Definition select_bookmarks (uid : string) (table : list Bookmark)
  : option (list Bookmark) :=
  Some (order_desc (filter (visible uid) table)).

(** [(bookmarks as Bookmark[]) ?? []]: the [initialBookmarks] prop. *)
Definition initialBookmarks (data : option (list Bookmark)) : list Bookmark :=
  match data with
  | Some l => l
  | None => []
  end.

End DashboardPage.

(* ================================================================== *)
(** ** The platform's URL constructor *)

(** [new URL(str)] is a built-in of the platform: it is written out here
    after the URL Standard (the basic URL parser, called without a base
    URL), as far as [isValidUrl] can observe it: whether it throws, and
    the [protocol] of the result.  For the schemes "http" and "https" the
    scheme, authority, host and port states are followed; later states
    (path, query, fragment) never fail.  The host parser (domain to ASCII,
    IPv4, IPv6) and the treatment of every other scheme are parameters. *)
Module URL.

Definition is_alpha (c : ascii) : bool :=
  let n := Js.code c in
  ((65 <=? n) && (n <=? 90)) || ((97 <=? n) && (n <=? 122)).

Definition is_digit (c : ascii) : bool :=
  let n := Js.code c in (48 <=? n) && (n <=? 57).

(** ASCII alphanumeric, "+", "-" or ".". *)
Definition is_scheme_char (c : ascii) : bool :=
  is_alpha c || is_digit c
  || Ascii.eqb c "+" || Ascii.eqb c "-" || Ascii.eqb c ".".

Definition is_c0_or_space (c : ascii) : bool := Js.code c <=? 32.

Definition is_tab_or_newline (c : ascii) : bool :=
  let n := Js.code c in (n =? 9) || (n =? 10) || (n =? 13).

Fixpoint strip_leading (s : string) : string :=
  match s with
  | EmptyString => EmptyString
  | String c s' => if is_c0_or_space c then strip_leading s' else s
  end.

Fixpoint strip_trailing (s : string) : string :=
  match s with
  | EmptyString => EmptyString
  | String c s' =>
      match strip_trailing s' with
      | EmptyString =>
          if is_c0_or_space c then EmptyString else String c EmptyString
      | t => String c t
      end
  end.

Fixpoint remove_tab_newline (s : string) : string :=
  match s with
  | EmptyString => EmptyString
  | String c s' =>
      if is_tab_or_newline c then remove_tab_newline s'
      else String c (remove_tab_newline s')
  end.

(** Scheme state: the lower-cased scheme and what follows its ":". *)
Fixpoint scheme_state (s : string) (buffer : string)
  : option (string * string) :=
  match s with
  | EmptyString => None
  | String c s' =>
      if is_scheme_char c
      then scheme_state s' (buffer ++ String (Js.lower_char c) EmptyString)%string
      else if Ascii.eqb c ":" then Some (buffer, s') else None
  end.

(** Scheme start state; without a base URL, no scheme is a failure. *)
Definition scheme_start_state (s : string) : option (string * string) :=
  match s with
  | String c _ => if is_alpha c then scheme_state s EmptyString else None
  | EmptyString => None
  end.

Definition is_slash (c : ascii) : bool :=
  Ascii.eqb c "/" || Ascii.eqb c "\".

(** Special authority slashes and ignore-slashes states. *)
Fixpoint ignore_slashes (s : string) : string :=
  match s with
  | EmptyString => EmptyString
  | String c s' => if is_slash c then ignore_slashes s' else s
  end.

(** The authority ends at the first "/", "\", "?" or "#". *)
Definition ends_authority (c : ascii) : bool :=
  is_slash c || Ascii.eqb c "?" || Ascii.eqb c "#".

Fixpoint authority (s : string) : string :=
  match s with
  | EmptyString => EmptyString
  | String c s' =>
      if ends_authority c then EmptyString else String c (authority s')
  end.

(** Authority state: what follows the last "@" (the whole authority when
    there is none), and whether an "@" was seen. *)
Fixpoint after_credentials (s : string) : string * bool :=
  match s with
  | EmptyString => (EmptyString, false)
  | String c s' =>
      let '(rest, seen) := after_credentials s' in
      if seen then (rest, true)
      else if Ascii.eqb c "@" then (s', true)
      else (String c rest, false)
  end.

(** Host state: the host, and the port text after the first ":" that is
    not inside square brackets. *)
Fixpoint host_state (s : string) (insideBrackets : bool) (buffer : string)
  : string * option string :=
  match s with
  | EmptyString => (buffer, None)
  | String c s' =>
      if Ascii.eqb c ":" && negb insideBrackets then (buffer, Some s')
      else
        let inside :=
          if Ascii.eqb c "[" then true
          else if Ascii.eqb c "]" then false
          else insideBrackets in
        host_state s' inside (buffer ++ String c EmptyString)%string
  end.

(** Port state: decimal digits only, and a value of at most 65535. *)
Fixpoint port_value (s : string) (acc : N) : option N :=
  match s with
  | EmptyString => Some acc
  | String c s' =>
      if is_digit c
      then port_value s' (10 * acc + N.of_nat (Js.code c - 48))%N
      else None
  end.

Definition port_state (s : string) : bool :=
  match port_value s 0%N with
  | Some p => (p <=? 65535)%N
  | None => false
  end.

Section Parser.

(** The host parser: does this host text parse? *)
Variable host_parser : string -> bool.
(** Every scheme but "http" and "https": does the rest parse? *)
Variable parse_other : string -> string -> bool.

Definition parse_http (rest : string) : bool :=
  let '(hostport, atSignSeen) :=
    after_credentials (authority (ignore_slashes rest)) in
  if atSignSeen && Js.is_empty hostport then false
  else
    let '(host, port) := host_state hostport false EmptyString in
    if Js.is_empty host then false
    else if negb (host_parser host) then false
    else match port with
         | Some p => port_state p
         | None => true
         end.

(** [new URL(str).protocol], or [None] when the constructor throws. *)
Definition protocol (str : string) : option string :=
  let input := remove_tab_newline (strip_trailing (strip_leading str)) in
  match scheme_start_state input with
  | None => None
  | Some (scheme, rest) =>
      let ok :=
        if String.eqb scheme "http" || String.eqb scheme "https"
        then parse_http rest
        else parse_other scheme rest in
      if ok then Some (scheme ++ ":")%string else None
  end.

End Parser.

End URL.

(* ================================================================== *)
(** ** The realtime client: channels and their listeners *)

Module Realtime.

Inductive PgEvent := INSERT | DELETE.

(** The filter object given to [.on("postgres_changes", ...)]. *)
Record Binding := mkBinding {
  event : PgEvent;
  schema : string;
  table : string;
  row_filter : string
}.

Record Channel := mkChannel {
  topic : string;
  bindings : list Binding
}.

(** The channels the client holds open, each under the identity it was
    given when created, and the next identity to give. *)
Record Client := mkClient {
  channels : list (nat * Channel);
  next_ref : nat
}.

Definition fresh_client : Client := mkClient [] 0.

(** [supabase.channel(topic).on(..).on(..).subscribe()]: the channel is
    registered with the client and its reference returned. *)
Definition subscribe (ch : Channel) (c : Client) : Client * nat :=
  (mkClient (channels c ++ [(next_ref c, ch)]) (S (next_ref c)), next_ref c).

(** [supabase.removeChannel(channel)]. *)
Definition removeChannel (ref : nat) (c : Client) : Client :=
  mkClient (filter (fun p => negb (fst p =? ref)) (channels c)) (next_ref c).

(** Change events as the listeners receive them. *)
Record InsertPayload := mkInsertPayload {
  ins_commit_timestamp : string;
  new : Bookmark
}.

Record DeletePayload := mkDeletePayload {
  del_commit_timestamp : string;
  old : PartialBookmark
}.

End Realtime.

(* ================================================================== *)
(** ** The dashboard component *)

Module DashboardClient.

Import Realtime.

Inductive ToastType := success | error.

Record Toast := mkToast {
  message : string;
  type : ToastType
}.

(** The component's state variables.  The form fields [title] and [url]
    are named [titleInput] and [urlInput] here, apart from the record's. *)
Record State := mkState {
  bookmarks : list Bookmark;
  titleInput : string;
  urlInput : string;
  search : string;
  isAdding : bool;
  toast : option Toast
}.

(** [useState<Bookmark[]>(initialBookmarks)] and the other initial values. *)
Definition initialState (initialBookmarks : list Bookmark) : State :=
  mkState initialBookmarks "" "" "" false None.

Definition setBookmarks (f : list Bookmark -> list Bookmark) (st : State) :=
  mkState (f (bookmarks st)) (titleInput st) (urlInput st) (search st)
          (isAdding st) (toast st).
Definition setTitle (v : string) (st : State) :=
  mkState (bookmarks st) v (urlInput st) (search st) (isAdding st) (toast st).
Definition setUrl (v : string) (st : State) :=
  mkState (bookmarks st) (titleInput st) v (search st) (isAdding st) (toast st).
Definition setSearch (v : string) (st : State) :=
  mkState (bookmarks st) (titleInput st) (urlInput st) v (isAdding st) (toast st).
Definition setIsAdding (v : bool) (st : State) :=
  mkState (bookmarks st) (titleInput st) (urlInput st) (search st) v (toast st).
Definition setToast (v : option Toast) (st : State) :=
  mkState (bookmarks st) (titleInput st) (urlInput st) (search st)
          (isAdding st) v.

Definition showToast (m : string) (t : ToastType) : State -> State :=
  setToast (Some (mkToast m t)).

(** *** Realtime handlers *)

(** The updater of the INSERT listener: the new row goes to the front
    unless a bookmark with its id is already there. *)
Definition insert_updater (payload : InsertPayload) (prev : list Bookmark)
  : list Bookmark :=
  let exists_ := existsb (fun b => String.eqb (id b) (id (new payload))) prev in
  if exists_ then prev else new payload :: prev.

(** The updater of the DELETE listener. *)
Definition delete_updater (payload : DeletePayload) (prev : list Bookmark)
  : list Bookmark :=
  filter (fun b => strict_neq (id b) (old_id (old payload))) prev.

Definition on_INSERT (payload : InsertPayload) : State -> State :=
  setBookmarks (insert_updater payload).

Definition on_DELETE (payload : DeletePayload) : State -> State :=
  setBookmarks (delete_updater payload).

(** The two store operations of the design, as the code has them: the
    merge-insert of a record is the INSERT updater on an event carrying
    it, the removal of an identifier is the DELETE updater on an event
    whose old row carries just that identifier. *)
Definition upsertIfAbsent (record : Bookmark) : list Bookmark -> list Bookmark :=
  insert_updater (mkInsertPayload "" record).

Definition removeById (i : string) : list Bookmark -> list Bookmark :=
  delete_updater (mkDeletePayload "" (mkPartial (Some i) None None None None)).

(** *** The subscription effect *)

(** The channel the effect builds for the signed-in user. *)
Definition bookmarks_channel (user : string) : Channel :=
  let f := ("user_id=eq." ++ user)%string in
  mkChannel "bookmarks-realtime"
    [ mkBinding INSERT "public" "bookmarks" f;
      mkBinding DELETE "public" "bookmarks" f ].

(** Body of the effect: subscribe, keep the reference for the cleanup. *)
Definition effect (user : string) (c : Client) : Client * nat :=
  subscribe (bookmarks_channel user) c.

(** The function the effect returns. *)
Definition cleanup (channel : nat) (c : Client) : Client :=
  removeChannel channel c.

(** A mounted component: the client, the channel its last effect run
    holds, and the dependency the run was made for ([user.id]; the client
    itself is one object for the whole page). *)
Record Mounted := mkMounted {
  client : Client;
  channel : nat;
  dep_user : string
}.

(** React's schedule for an effect with dependencies: run on mount; on a
    render whose dependencies changed, clean up and run again; clean up
    on unmount. *)
Definition mount (user : string) (c : Client) : Mounted :=
  let '(c', ch) := effect user c in mkMounted c' ch user.

Definition rerender (user : string) (m : Mounted) : Mounted :=
  if String.eqb user (dep_user m) then m
  else mount user (cleanup (channel m) (client m)).

Definition unmount (m : Mounted) : Client :=
  cleanup (channel m) (client m).

(** A whole session: mount, renders with these user ids, unmount. *)
Definition session (user : string) (renders : list string) (c : Client)
  : Client :=
  unmount (fold_left (fun m u => rerender u m) renders (mount user c)).

(** *** The search filter *)

Definition matches (q : string) (b : Bookmark) : bool :=
  Js.includes (Js.toLowerCase (title b)) (Js.toLowerCase q)
  || Js.includes (Js.toLowerCase (url b)) (Js.toLowerCase q).

Definition filteredBookmarks (st : State) : list Bookmark :=
  filter (matches (search st)) (bookmarks st).

(** The filtered view of a list for a query. *)
Definition filteredView (q : string) (l : list Bookmark) : list Bookmark :=
  filteredBookmarks (setSearch q (initialState l)).

(** *** Adding and deleting *)

(** The row given to [insert]. *)
Record InsertRow := mkInsertRow {
  row_title : string;
  row_url : string;
  row_user_id : string
}.

(** Calls made to the remote store. *)
Inductive Request :=
| Insert (row : InsertRow)
| Delete (i : string).

Section Handlers.

Variable host_parser : string -> bool.
Variable parse_other : string -> string -> bool.
(** [user.id]. *)
Variable user : string.

Definition isValidUrl (str : string) : bool :=
  match URL.protocol host_parser parse_other str with
  | Some p => String.eqb p "http:" || String.eqb p "https:"
  | None => false
  end.

(** The address as it is validated and sent. *)
Definition finalUrl (st : State) : string :=
  let u := Js.trim (urlInput st) in
  if negb (Js.startsWith u "http://") && negb (Js.startsWith u "https://")
  then ("https://" ++ u)%string
  else u.

(** [handleAddBookmark] up to its [await]: either a validation message
    and no call, or the row to insert. *)
Definition handleAddBookmark_submit (st : State) : State * option InsertRow :=
  if Js.is_empty (Js.trim (titleInput st))
  then (showToast "Please enter a title" error st, None)
  else if negb (isValidUrl (finalUrl st))
  then (showToast "Please enter a valid URL" error st, None)
  else (setIsAdding true st,
        Some (mkInsertRow (Js.trim (titleInput st)) (finalUrl st) user)).

(** [handleAddBookmark] after the [await], on the state as it is then;
    [failed] says whether the call returned an error. *)
Definition handleAddBookmark_resume (failed : bool) (st : State) : State :=
  setIsAdding false
    (if failed
     then showToast "Failed to add bookmark" error st
     else setUrl "" (setTitle "" (showToast "Bookmark added!" success st))).

(** The handler run in one piece against a remote store that answers
    each insert with an error or not: the final state and the calls
    made, in order. *)
Definition handleAddBookmark (insert_fails : InsertRow -> bool) (st : State)
  : State * list Request :=
  match handleAddBookmark_submit st with
  | (st1, None) => (st1, [])
  | (st1, Some row) =>
      (handleAddBookmark_resume (insert_fails row) st1, [Insert row])
  end.

Definition handleDeleteBookmark_resume (failed : bool) (st : State) : State :=
  if failed
  then showToast "Failed to delete bookmark" error st
  else showToast "Bookmark deleted" success st.

Definition handleDeleteBookmark (delete_fails : string -> bool) (i : string)
  (st : State) : State * list Request :=
  (handleDeleteBookmark_resume (delete_fails i) st, [Delete i]).

End Handlers.

End DashboardClient.

(* ================================================================== *)
(** ** Notions the properties are stated with *)

Import Realtime DashboardClient.

(** The identifiers held by a list, in order. *)
Definition ids (l : list Bookmark) : list string := map id l.

(** How many entries of a list carry an identifier. *)
Definition count_id (i : string) (l : list Bookmark) : nat :=
  List.length (filter (fun b => String.eqb (id b) i) l).

(** Applying the merge-insert to a sequence of records, first to last. *)
Definition upsert_all (rs : list Bookmark) (s : list Bookmark) : list Bookmark :=
  fold_left (fun acc r => upsertIfAbsent r acc) rs s.

(** Newest first: every entry is at least as recent as all that follow. *)
Definition sorted_desc (l : list Bookmark) : Prop :=
  StronglySorted (fun a b => (created_at b <= created_at a)%Z) l.

(** [Selects P l out]: [out] is [l] with exactly the entries satisfying [P]
    kept, in their order. *)
Inductive Selects (P : Bookmark -> Prop) : list Bookmark -> list Bookmark -> Prop :=
| Selects_nil : Selects P [] []
| Selects_keep b l out : P b -> Selects P l out -> Selects P (b :: l) (b :: out)
| Selects_skip b l out : ~ P b -> Selects P l out -> Selects P (b :: l) out.

(** The create operation ends in a validation error: the handler stopped
    before its remote call. *)
Definition validation_error (r : State * option InsertRow) : Prop :=
  snd r = None.

(** The address after normalization, in the design's words: the input
    is trimmed, and a bare input (one that starts with neither "http://"
    nor "https://") is prefixed with "https://". *)
Definition normalized (address : string) : string :=
  let u := Js.trim address in
  if Js.startsWith u "http://" || Js.startsWith u "https://"
  then u
  else ("https://" ++ u)%string.

(** A text parses as an absolute http or https URL. *)
Definition absolute_http_url
  (host_parser : string -> bool) (parse_other : string -> string -> bool)
  (u : string) : Prop :=
  exists p, URL.protocol host_parser parse_other u = Some p
            /\ (p = "http:" \/ p = "https:").

(** Every channel of the client was given its reference by the client. *)
Definition client_wf (c : Client) : Prop :=
  forall p, In p (channels c) -> fst p < next_ref c.

(** The component after its mount and a sequence of renders. *)
Definition mounted_after (user : string) (renders : list string) (c : Client)
  : Mounted :=
  fold_left (fun m u => rerender u m) renders (mount user c).

(** What holds of a mounted component started on the client [c0]: the
    channels are those of [c0] and, last, the one of its effect. *)
Definition holds_one_channel (c0 : Client) (m : Mounted) : Prop :=
  channels (client m)
  = channels c0 ++ [(channel m, bookmarks_channel (dep_user m))]
  /\ next_ref c0 <= channel m
  /\ channel m < next_ref (client m).

(** Records of the scenarios. *)
Definition rec_A : Bookmark := mkBookmark "a" "u" "A" "https://a.example" 10.
Definition rec_B : Bookmark := mkBookmark "b" "u" "B" "https://b.example" 20.
Definition rec_C : Bookmark := mkBookmark "c" "u" "C" "https://c.example" 30.
Definition rec_old : Bookmark := mkBookmark "o" "u" "O" "https://o.example" 5.
Definition rec_z1 : Bookmark := mkBookmark "z" "u" "first" "https://z.example" 40.
Definition rec_z2 : Bookmark := mkBookmark "z" "u" "second" "https://z.example" 40.

(** The form filled in for a successful add. *)
Definition form_example : State :=
  mkState [rec_A] "Example" "example.com" "" false None.

(* ================================================================== *)
(** ** The bookmark card *)

(** [src/components/BookmarkCard.tsx]: the texts a card shows.  The card
    receives the record's [created_at] as text; [timeAgo] is given the time
    value of [new Date(dateStr)] in milliseconds, [None] when it is NaN.
    Time values are integers, and [Math.floor] of the quotients below is
    the integer division (exact in doubles for differences under 2^53). *)
Module BookmarkCard.

(** The decimal text of an integer, as a template literal prints it. *)
Definition decimal (z : Z) : string := NilEmpty.string_of_int (Z.to_int z).

Section Card.

Variable host_parser : string -> bool.
Variable parse_other : string -> string -> bool.
(** [hostname] and [pathname] of the URL a text parses to. *)
Variable hostname : string -> string.
Variable pathname : string -> string.
(** The horizontal ellipsis U+2026: one code unit. *)
Variable ellipsis : ascii.
(** [date.toLocaleDateString("en-US", {month: "short", day: "numeric"})]
    of a valid date. *)
Variable toLocaleDateString : Z -> string.

Definition truncateUrl (url : string) (max : nat) : string :=
  match URL.protocol host_parser parse_other url with
  | Some _ =>
      let display := (hostname url ++ pathname url)%string in
      if max <? String.length display
      then (substring 0 max display ++ String ellipsis "")%string
      else display
  | None =>
      if max <? String.length url
      then (substring 0 max url ++ String ellipsis "")%string
      else url
  end.

(** The default of [max]. *)
Definition truncateUrl_default_max : nat := 40.

Definition getFaviconUrl (url : string) : option string :=
  match URL.protocol host_parser parse_other url with
  | Some _ =>
      Some ("https://www.google.com/s2/favicons?domain="
              ++ hostname url ++ "&sz=32")%string
  | None => None
  end.

Definition timeAgo (now : Z) (date : option Z) : string :=
  match date with
  | None => "Invalid Date"
  | Some t =>
      let diff := (now - t)%Z in
      let minutes := (diff / 60000)%Z in
      let hours := (minutes / 60)%Z in
      let days := (hours / 24)%Z in
      if (minutes <? 1)%Z then "Just now"
      else if (minutes <? 60)%Z then (decimal minutes ++ "m ago")%string
      else if (hours <? 24)%Z then (decimal hours ++ "h ago")%string
      else if (days <? 7)%Z then (decimal days ++ "d ago")%string
      else toLocaleDateString t
  end.

End Card.

End BookmarkCard.

(* ================================================================== *)
(** ** Deleting from a card *)

(** The two state variables of a card and its three buttons.  The delete
    button is rendered while [showConfirm] is false; the confirm and the
    cancel button while it is true, the confirm button disabled while
    [isDeleting].  [in_flight] counts the calls of [onDelete] that were
    made and have not returned yet. *)
Module CardDelete.

Record Card := mkCard {
  isDeleting : bool;
  showConfirm : bool;
  in_flight : nat
}.

Definition initial : Card := mkCard false false 0.

Inductive CardEvent :=
| ClickDelete      (* the delete button: [setShowConfirm(true)] *)
| ClickConfirm     (* the confirm button: [handleDelete] *)
| ClickCancel      (* the cancel button: [setShowConfirm(false)] *)
| DeleteReturned.  (* [await onDelete(bookmark.id)] returns *)

(** One event on the card of the bookmark [i]: the next state and the
    calls made to the remote store.  A click on a button that is not
    rendered, or is disabled, does nothing. *)
Definition step (i : string) (c : Card) (e : CardEvent) : Card * list Request :=
  match e with
  | ClickDelete =>
      if showConfirm c then (c, [])
      else (mkCard (isDeleting c) true (in_flight c), [])
  | ClickConfirm =>
      if showConfirm c && negb (isDeleting c)
      then (mkCard true (showConfirm c) (S (in_flight c)), [Delete i])
      else (c, [])
  | ClickCancel =>
      if showConfirm c then (mkCard (isDeleting c) false (in_flight c), [])
      else (c, [])
  | DeleteReturned =>
      match in_flight c with
      | O => (c, [])
      | S n => (mkCard false false n, [])
      end
  end.

Fixpoint run (i : string) (c : Card) (es : list CardEvent)
  : Card * list Request :=
  match es with
  | [] => (c, [])
  | e :: es' =>
      let '(c1, r1) := step i c e in
      let '(c2, r2) := run i c1 es' in
      (c2, r1 ++ r2)
  end.

(** How many clicks on the delete button a sequence holds. *)
Definition delete_clicks (es : list CardEvent) : nat :=
  List.length (filter (fun e => match e with ClickDelete => true | _ => false end) es).

(** The confirm button is there and enabled. *)
Definition armed (c : Card) : nat :=
  if showConfirm c && negb (isDeleting c) then 1 else 0.

(** What holds of a card at all times. *)
Definition consistent (c : Card) : Prop :=
  (isDeleting c = true /\ in_flight c = 1)
  \/ (isDeleting c = false /\ in_flight c = 0).

End CardDelete.

(* ================================================================== *)
(** ** The header of the dashboard *)

(** [a || b] on texts that may be missing: the first that is there and
    not empty, else the second. *)
Definition js_or (a b : option string) : option string :=
  match a with
  | Some s => if Js.is_empty s then b else a
  | None => b
  end.

(** [user.user_metadata?.full_name || user.email || "User"]. *)
Definition userName (full_name email : option string) : string :=
  match js_or (js_or full_name email) (Some "User") with
  | Some s => s
  | None => ""
  end.

(** [s.charAt(0)]. *)
Definition charAt0 (s : string) : string :=
  match s with
  | String c _ => String c ""
  | EmptyString => ""
  end.

(* ================================================================== *)
(** ** The table and its row-level policies *)

(** The migration: the [bookmarks] table with its primary key and the
    three policies, and the statements the application runs on it for the
    signed-in user [uid].  The identifier and the timestamp the server
    gives a new row ([gen_random_uuid()], [now()]) are arguments. *)
Module Db.

(** "Users can insert their own bookmarks": WITH CHECK (auth.uid() = user_id). *)
Definition insert_policy (uid : string) (row : InsertRow) : bool :=
  String.eqb uid (row_user_id row).

(** "Users can delete their own bookmarks": USING (auth.uid() = user_id). *)
Definition delete_policy (uid : string) (b : Bookmark) : bool :=
  String.eqb uid (user_id b).

(** [from("bookmarks").insert(row)]: refused (an error is returned) when
    the policy check fails or the primary key is taken. *)
Definition insert (uid : string) (row : InsertRow) (new_id : string) (now : Z)
  (table : list Bookmark) : option (list Bookmark) :=
  if negb (insert_policy uid row) then None
  else if existsb (fun b => String.eqb (id b) new_id) table then None
  else Some (table ++ [mkBookmark new_id (row_user_id row) (row_title row)
                                  (row_url row) now]).

(** [from("bookmarks").delete().eq("id", i)]: the rows with this id that
    the policy lets the user delete are removed. *)
Definition delete (uid : string) (i : string) (table : list Bookmark)
  : list Bookmark :=
  filter (fun b => negb (String.eqb (id b) i && delete_policy uid b)) table.

End Db.

(* ================================================================== *)
(** ** Sequences of change events *)

Inductive Event :=
| Inserted (p : InsertPayload)
| Deleted (p : DeletePayload).

(** The listener the channel calls for an event. *)
Definition deliver (e : Event) : State -> State :=
  match e with
  | Inserted p => on_INSERT p
  | Deleted p => on_DELETE p
  end.

Definition deliver_all (es : list Event) (st : State) : State :=
  fold_left (fun acc e => deliver e acc) es st.

(** Whether the identifier [i] is held after an event, given whether it
    was held before. *)
Definition present_step (i : string) (present : bool) (e : Event) : bool :=
  match e with
  | Inserted p => present || String.eqb (id (new p)) i
  | Deleted p => present && strict_neq i (old_id (old p))
  end.

Definition present_after (i : string) (es : list Event) (present : bool) : bool :=
  fold_left (present_step i) es present.

(** The first and the last character of a text are white space. *)
Definition starts_white (s : string) : bool :=
  match s with
  | String c _ => Js.is_white c
  | EmptyString => false
  end.

Fixpoint ends_white (s : string) : bool :=
  match s with
  | EmptyString => false
  | String c EmptyString => Js.is_white c
  | String _ s' => ends_white s'
  end.

(* ================================================================== *)
(** ** The search filter on UTF-16 text *)

(** The filter of the component once more, on texts as JavaScript has
    them: sequences of 16-bit code units, so that every title, address and
    query can be written.  [String.prototype.toLowerCase] is the
    platform's: the Unicode mapping, which turns a capital sigma into one
    of two letters by its context and some characters into several.  It is
    a parameter of the filter. *)
Module Utf16.

Definition text := list N.

(** [interface Bookmark], every text a sequence of code units. *)
Record Bookmark := mkBookmark {
  id : text;
  user_id : text;
  title : text;
  url : text;
  created_at : Z
}.

(** [s.startsWith(p)]. *)
Fixpoint startsWith (s p : text) {struct p} : bool :=
  match p, s with
  | [], _ => true
  | _ :: _, [] => false
  | b :: p', a :: s' => N.eqb a b && startsWith s' p'
  end.

(** [s.includes(sub)]. *)
Fixpoint includes (s sub : text) : bool :=
  startsWith s sub ||
  match s with
  | [] => false
  | _ :: s' => includes s' sub
  end.

Section Filter.

(** [String.prototype.toLowerCase]. *)
Variable toLowerCase : text -> text.

Definition matches (search : text) (b : Bookmark) : bool :=
  includes (toLowerCase (title b)) (toLowerCase search)
  || includes (toLowerCase (url b)) (toLowerCase search).

(** [filteredBookmarks], for the search text and the list of the state. *)
Definition filteredBookmarks (search : text) (bookmarks : list Bookmark)
  : list Bookmark :=
  filter (matches search) bookmarks.

End Filter.

(** *** The lower-casing of Basic Latin and Greek text *)

(** [toLowerCase] written out for the texts made of Basic Latin (ASCII)
    characters and the letters of the Greek alphabet, after the Unicode
    Standard: the cased letters and the case-ignorable characters of that
    range, and the Final_Sigma condition.  Code units outside the range
    are not in its domain (they are left as they are). *)
Local Open Scope N_scope.

Definition is_cased (c : N) : bool :=
  ((65 <=? c) && (c <=? 90)) || ((97 <=? c) && (c <=? 122))
  || ((913 <=? c) && (c <=? 937) && negb (c =? 930))
  || ((945 <=? c) && (c <=? 969)).

(** Apostrophe, full stop, colon, circumflex accent, grave accent. *)
Definition is_case_ignorable (c : N) : bool :=
  (c =? 39) || (c =? 46) || (c =? 58) || (c =? 94) || (c =? 96).

(** The text goes on with case-ignorable characters and then a cased letter. *)
Fixpoint before_cased (s : text) : bool :=
  match s with
  | [] => false
  | c :: s' => if is_case_ignorable c then before_cased s' else is_cased c
  end.

Definition lower_unit (c : N) : N :=
  if ((65 <=? c) && (c <=? 90))
     || ((913 <=? c) && (c <=? 937) && negb (c =? 930))
  then c + 32
  else c.

(** [after_cased]: the text so far ends with a cased letter and then
    case-ignorable characters.  A capital sigma (931) in that position and
    not [before_cased] is the final sigma (962); else it is 963. *)
Fixpoint lower_from (after_cased : bool) (s : text) : text :=
  match s with
  | [] => []
  | c :: s' =>
      (if (c =? 931) && after_cased && negb (before_cased s')
       then 962
       else lower_unit c)
      :: lower_from (if is_case_ignorable c then after_cased else is_cased c) s'
  end.

Definition toLowerCase_latin_greek (s : text) : text := lower_from false s.

Local Close Scope N_scope.

(** The code units of an ASCII text. *)
Fixpoint of_string (s : string) : text :=
  match s with
  | EmptyString => []
  | String c s' => N.of_nat (nat_of_ascii c) :: of_string s'
  end.

(** *** Notions *)

(** [q] occurs in [t]: [t] is some text, then [q], then some text. *)
Definition occurs (q t : text) : Prop :=
  exists pre post, t = pre ++ q ++ post.

(** A record matches a query on the lower-cased texts: the lower-cased
    query occurs in the lower-cased title or in the lower-cased address. *)
Definition matches_lowercased (toLowerCase : text -> text) (q : text)
  (b : Bookmark) : Prop :=
  occurs (toLowerCase q) (toLowerCase (title b))
  \/ occurs (toLowerCase q) (toLowerCase (url b)).

(** [Keeps P l out]: [out] is [l] with exactly the entries satisfying [P]
    kept, in their order. *)
Inductive Keeps (P : Bookmark -> Prop) : list Bookmark -> list Bookmark -> Prop :=
| Keeps_nil : Keeps P [] []
| Keeps_keep b l out : P b -> Keeps P l out -> Keeps P (b :: l) (b :: out)
| Keeps_skip b l out : ~ P b -> Keeps P l out -> Keeps P (b :: l) out.

(** Newest first. *)
Definition sorted_desc (l : list Bookmark) : Prop :=
  StronglySorted (fun a b => (created_at b <= created_at a)%Z) l.

(** Records of the scenarios: a title of capital alpha and capital sigma,
    and two plain ones. *)
Definition rec_sigma : Bookmark :=
  mkBookmark (of_string "s") (of_string "u") [913%N; 931%N]
             (of_string "https://s.example") 10.
Definition rec_b : Bookmark :=
  mkBookmark (of_string "b") (of_string "u") (of_string "B")
             (of_string "https://b.example") 20.
Definition rec_a : Bookmark :=
  mkBookmark (of_string "a") (of_string "u") (of_string "A")
             (of_string "https://a.example") 10.

End Utf16.

(* ================================================================== *)
(** ** The merge-insert and the removal on lists *)

Section StoreLemmas.

Implicit Types (s : list Bookmark) (r b : Bookmark) (i : string).

Lemma existsb_id_In i s :
  existsb (fun b => String.eqb (id b) i) s = true <-> In i (ids s).
Proof.
  unfold ids. rewrite existsb_exists, in_map_iff.
  split; intros [b [H1 H2]]; exists b.
  - apply String.eqb_eq in H2. auto.
  - split; [assumption | now apply String.eqb_eq].
Qed.

Lemma upsert_present r s :
  In (id r) (ids s) -> upsertIfAbsent r s = s.
Proof.
  intros H. apply existsb_id_In in H.
  unfold upsertIfAbsent, insert_updater. simpl. now rewrite H.
Qed.

Lemma upsert_absent r s :
  ~ In (id r) (ids s) -> upsertIfAbsent r s = r :: s.
Proof.
  intros H. unfold upsertIfAbsent, insert_updater. simpl.
  destruct (existsb _ s) eqn:E; [| reflexivity].
  apply existsb_id_In in E. contradiction.
Qed.

Lemma upsert_cases r s :
  (In (id r) (ids s) /\ upsertIfAbsent r s = s)
  \/ (~ In (id r) (ids s) /\ upsertIfAbsent r s = r :: s).
Proof.
  destruct (in_dec string_dec (id r) (ids s)) as [H | H].
  - left. split; [assumption | now apply upsert_present].
  - right. split; [assumption | now apply upsert_absent].
Qed.

Lemma upsert_all_present i rs s :
  Forall (fun r => id r = i) rs -> In i (ids s) -> upsert_all rs s = s.
Proof.
  intros Hall Hin. induction Hall as [| r rs Hr _ IH]; [reflexivity |].
  unfold upsert_all in *. simpl. rewrite upsert_present.
  - exact IH.
  - now rewrite Hr.
Qed.

Lemma upsert_all_absent i r0 rs s :
  Forall (fun r => id r = i) (r0 :: rs) -> ~ In i (ids s) ->
  upsert_all (r0 :: rs) s = r0 :: s.
Proof.
  intros Hall Hnot. inversion Hall as [| ? ? H0 Hrs]; subst.
  unfold upsert_all. simpl. rewrite upsert_absent by assumption.
  apply (upsert_all_present (id r0)); [assumption | simpl; auto].
Qed.

Lemma count_id_absent i s : ~ In i (ids s) -> count_id i s = 0.
Proof.
  unfold count_id. induction s as [| b s IH]; intros H; [reflexivity |].
  simpl in *. destruct (String.eqb (id b) i) eqn:E.
  - apply String.eqb_eq in E. exfalso. auto.
  - apply IH. auto.
Qed.

Lemma count_id_unique i s :
  NoDup (ids s) -> In i (ids s) -> count_id i s = 1.
Proof.
  induction s as [| b s IH]; intros Hnd Hin; [contradiction |].
  simpl in Hnd. inversion Hnd as [| ? ? Hb Hs]; subst.
  unfold count_id in *. simpl.
  destruct (String.eqb (id b) i) eqn:E.
  - apply String.eqb_eq in E. subst i. simpl. f_equal.
    now apply count_id_absent.
  - apply String.eqb_neq in E. destruct Hin as [Hin | Hin];
      [contradiction | now apply IH].
Qed.

Lemma upsert_NoDup r s : NoDup (ids s) -> NoDup (ids (upsertIfAbsent r s)).
Proof.
  intros H. destruct (upsert_cases r s) as [[_ E] | [Hn E]]; rewrite E.
  - assumption.
  - simpl. now constructor.
Qed.

Lemma upsert_all_NoDup rs s : NoDup (ids s) -> NoDup (ids (upsert_all rs s)).
Proof.
  revert s. induction rs as [| r rs IH]; intros s H; [assumption |].
  unfold upsert_all in *. simpl. apply IH. now apply upsert_NoDup.
Qed.

(** The removal keeps exactly the entries with another identifier. *)
Lemma removeById_filter i s :
  removeById i s = filter (fun b => negb (String.eqb (id b) i)) s.
Proof. reflexivity. Qed.

Lemma removeById_In i s b :
  In b (removeById i s) <-> In b s /\ id b <> i.
Proof.
  rewrite removeById_filter, filter_In, negb_true_iff.
  now rewrite String.eqb_neq.
Qed.

Lemma removeById_absent i s : ~ In i (ids s) -> removeById i s = s.
Proof.
  rewrite removeById_filter. induction s as [| b s IH]; intros H;
    [reflexivity |].
  simpl in *. destruct (String.eqb (id b) i) eqn:E.
  - apply String.eqb_eq in E. exfalso. auto.
  - simpl. f_equal. apply IH. auto.
Qed.

Lemma removeById_gone i s : ~ In i (ids (removeById i s)).
Proof.
  unfold ids. rewrite in_map_iff. intros [b [E H]].
  apply removeById_In in H. tauto.
Qed.

Lemma removeById_iter i s n :
  Nat.iter n (removeById i) (removeById i s) = removeById i s.
Proof.
  induction n as [| n IH]; [reflexivity |].
  simpl. rewrite IH. apply removeById_absent, removeById_gone.
Qed.

Lemma filter_Selects (f : Bookmark -> bool) (P : Bookmark -> Prop) s :
  (forall b, f b = true <-> P b) -> Selects P s (filter f s).
Proof.
  intros H. induction s as [| b s IH]; [constructor |].
  simpl. destruct (f b) eqn:E.
  - apply Selects_keep; [now apply H | assumption].
  - apply Selects_skip; [| assumption].
    intros HP. apply H in HP. congruence.
Qed.

Lemma filter_sorted_desc (f : Bookmark -> bool) s :
  sorted_desc s -> sorted_desc (filter f s).
Proof.
  unfold sorted_desc. induction 1 as [| b s Hs IH Hb]; [constructor |].
  simpl. destruct (f b); [| assumption].
  constructor; [assumption |].
  rewrite Forall_forall in *. intros x Hx.
  apply filter_In in Hx. now apply Hb.
Qed.

End StoreLemmas.

(* ================================================================== *)
(** ** Merging the same identifier several times *)

(** C1, as the claim states its last part: two creation events with the
    same identifier and different payloads, applied in the two possible
    orders, leave two different lists, so the final state does depend on
    the arrival order. *)
Lemma upsert_order_matters :
  id rec_z1 = id rec_z2
  /\ upsert_all [rec_z1; rec_z2] [rec_A] = [rec_z1; rec_A]
  /\ upsert_all [rec_z2; rec_z1] [rec_A] = [rec_z2; rec_A]
  /\ upsert_all [rec_z1; rec_z2] [rec_A] <> upsert_all [rec_z2; rec_z1] [rec_A].
Proof.
  repeat split; try reflexivity.
  vm_compute. intros H. discriminate H.
Qed.

(** C1 (amended): on a list with distinct identifiers, a non-empty
    sequence of merge-inserts that all carry the identifier [i] keeps the
    identifiers distinct and leaves exactly one entry with [i]; when [i]
    was not there before, that entry is the first record applied, put in
    front of the unchanged list, and otherwise the list is unchanged.  Any
    reordering of the sequence gives the same identifiers, the list it
    gives is headed by the record it applied first, and it gives the same
    list when it starts with the same record, as it does when all the
    calls carry one and the same record. *)
Theorem upsert_same_id_first_wins
  (i : string) (r0 : Bookmark) (rs s : list Bookmark) :
  Forall (fun r => id r = i) (r0 :: rs) ->
  NoDup (ids s) ->
  let s' := upsert_all (r0 :: rs) s in
  NoDup (ids s')
  /\ count_id i s' = 1
  /\ (~ In i (ids s) -> s' = r0 :: s)
  /\ (In i (ids s) -> s' = s)
  /\ (forall rs', Permutation (r0 :: rs) rs' ->
        ids (upsert_all rs' s) = ids s'
        /\ (~ In i (ids s) ->
            exists r', hd_error rs' = Some r' /\ upsert_all rs' s = r' :: s)
        /\ (hd_error rs' = Some r0 -> upsert_all rs' s = s')
        /\ ((forall r, In r rs -> r = r0) -> upsert_all rs' s = s')).
Proof.
  intros Hall Hnd s'. subst s'.
  assert (Hi0 : id r0 = i) by (inversion Hall; assumption).
  assert (Hperm : forall rs', Permutation (r0 :: rs) rs' ->
            exists r' rs'', rs' = r' :: rs''
              /\ Forall (fun r => id r = i) (r' :: rs'')
              /\ In r' (r0 :: rs)).
  { intros rs' P. destruct rs' as [| r' rs''].
    - apply Permutation_sym, Permutation_nil in P. discriminate P.
    - exists r', rs''. split; [reflexivity |]. split.
      + exact (Permutation_Forall P Hall).
      + apply (Permutation_in r' (Permutation_sym P)). simpl. auto. }
  destruct (in_dec string_dec i (ids s)) as [Hin | Hnot].
  - (* the identifier is already in the list: nothing changes *)
    rewrite (upsert_all_present i (r0 :: rs) s Hall Hin).
    split; [assumption |].
    split; [now apply count_id_unique |].
    split; [intros H; contradiction |].
    split; [reflexivity |].
    intros rs' P. destruct (Hperm rs' P) as [r' [rs'' [E [Hall' _]]]]. subst rs'.
    rewrite (upsert_all_present i (r' :: rs'') s Hall' Hin).
    repeat split; auto. intros H; contradiction.
  - rewrite (upsert_all_absent i r0 rs s Hall Hnot).
    split; [simpl; constructor; [rewrite Hi0 |]; assumption |].
    split.
    { unfold count_id. simpl. rewrite Hi0, String.eqb_refl. simpl. f_equal.
      now apply count_id_absent. }
    split; [reflexivity |].
    split; [intros H; contradiction |].
    intros rs' P. destruct (Hperm rs' P) as [r' [rs'' [E [Hall' Hr']]]]. subst rs'.
    rewrite (upsert_all_absent i r' rs'' s Hall' Hnot).
    assert (Hi' : id r' = i) by (inversion Hall'; assumption).
    split; [simpl; congruence |].
    split; [intros _; exists r'; split; reflexivity |].
    split.
    + simpl. intros H. congruence.
    + intros Hsame. destruct Hr' as [E | Hr'].
      * now subst r'.
      * now rewrite (Hsame r' Hr').
Qed.

Lemma upsert_same_id_first_wins_witness :
  upsert_all [rec_z1; rec_z2] [rec_A] = [rec_z1; rec_A]
  /\ count_id "z" (upsert_all [rec_z1; rec_z2] [rec_A]) = 1.
Proof.
  assert (Hall : Forall (fun r => id r = "z") [rec_z1; rec_z2])
    by (repeat constructor).
  assert (Hnd : NoDup (ids [rec_A]))
    by (simpl; constructor; [intros [] | constructor]).
  assert (Hnot : ~ In "z" (ids [rec_A]))
    by (simpl; intros [H | []]; discriminate H).
  destruct (upsert_same_id_first_wins "z" rec_z1 [rec_z2] [rec_A] Hall Hnd)
    as [_ [Hc [Hfirst _]]].
  split; [exact (Hfirst Hnot) | exact Hc].
Defined.

(* ================================================================== *)
(** ** Removal *)

(** C6: [removeById] keeps exactly the entries whose identifier differs
    from the given one, so afterwards no entry carries it; on a list where
    the identifier is absent it returns the list as it is; and after one
    removal any number of further removals of the same identifier changes
    nothing.  The operation is a total function: no case raises. *)
Theorem removeById_idempotent_total (i : string) (s : list Bookmark) :
  (forall b, In b (removeById i s) <-> In b s /\ id b <> i)
  /\ ~ In i (ids (removeById i s))
  /\ (~ In i (ids s) -> removeById i s = s)
  /\ (forall n, Nat.iter n (removeById i) (removeById i s) = removeById i s)
  /\ (forall n st,
        bookmarks (Nat.iter n
          (on_DELETE (mkDeletePayload "" (mkPartial (Some i) None None None None)))
          (on_DELETE (mkDeletePayload "" (mkPartial (Some i) None None None None)) st))
        = removeById i (bookmarks st)).
Proof.
  split; [intros b; apply removeById_In |].
  split; [apply removeById_gone |].
  split; [apply removeById_absent |].
  split; [intros n; apply removeById_iter |].
  intros n st. induction n as [| n IH]; [reflexivity |].
  rewrite Nat.iter_succ.
  change (bookmarks (on_DELETE ?p ?x)) with (delete_updater p (bookmarks x)).
  rewrite IH. apply removeById_absent, removeById_gone.
Qed.

(** The scenario of C6: a removal for an identifier that is not in the
    list leaves the list as it is. *)
Lemma removeById_idempotent_total_witness :
  removeById "x" [rec_B; rec_A] = [rec_B; rec_A].
Proof.
  destruct (removeById_idempotent_total "x" [rec_B; rec_A]) as [_ [_ [H _]]].
  apply H. simpl. intros [E | [E | []]]; discriminate E.
Defined.

(** C9: the DELETE listener reads nothing of the event but the identifier
    of the old row: two events whose old rows agree on it (whatever their
    other fields and commit timestamps) leave the same state, and an event
    whose old row has no identifier leaves the list as it is. *)
Theorem on_DELETE_reads_only_id :
  (forall (p1 p2 : DeletePayload) (st : State),
      old_id (old p1) = old_id (old p2) -> on_DELETE p1 st = on_DELETE p2 st)
  /\ (forall (p : DeletePayload) (st : State),
        old_id (old p) = None -> on_DELETE p st = st)
  /\ (forall (p : DeletePayload) (i : string) (st : State),
        old_id (old p) = Some i ->
        bookmarks (on_DELETE p st) = removeById i (bookmarks st)).
Proof.
  split; [| split].
  - intros p1 p2 st H. unfold on_DELETE, setBookmarks, delete_updater.
    now rewrite H.
  - intros p [bs t u q a tst] H.
    unfold on_DELETE, setBookmarks, delete_updater. simpl. rewrite H. simpl.
    f_equal. induction bs as [| b bs IH]; [reflexivity |].
    simpl. now rewrite IH.
  - intros p i st H. unfold on_DELETE, setBookmarks, delete_updater, removeById,
      delete_updater. simpl. now rewrite H.
Qed.

Lemma on_DELETE_reads_only_id_witness :
  on_DELETE (mkDeletePayload "t1" (mkPartial (Some "a") None None None None))
            (initialState [rec_B; rec_A])
  = on_DELETE (mkDeletePayload "t2"
                 (mkPartial (Some "a") (Some "u") (Some "A") None (Some 10%Z)))
              (initialState [rec_B; rec_A])
  /\ on_DELETE (mkDeletePayload "t3" (mkPartial None (Some "u") None None None))
               (initialState [rec_B; rec_A])
     = initialState [rec_B; rec_A].
Proof.
  destruct on_DELETE_reads_only_id as [H1 [H2 _]].
  split; [apply H1 | apply H2]; reflexivity.
Defined.

(** C10: a merge-insert returns the previous list with at most the new
    record put in front, so every earlier entry is kept as it was and in
    its place relative to the others (the entries with another identifier
    are the same before and after); a removal returns the previous list
    with exactly the entries of another identifier, in their order; and
    the two listeners change nothing of the state but the list. *)
Theorem merge_preserves_other_entries :
  (forall (r : Bookmark) (s : list Bookmark),
      upsertIfAbsent r s = s \/ upsertIfAbsent r s = r :: s)
  /\ (forall (r : Bookmark) (s : list Bookmark),
        removeById (id r) (upsertIfAbsent r s) = removeById (id r) s)
  /\ (forall (i : string) (s : list Bookmark),
        Selects (fun b => id b <> i) s (removeById i s))
  /\ (forall (p : InsertPayload) (st : State),
        on_INSERT p st
        = mkState (upsertIfAbsent (new p) (bookmarks st)) (titleInput st)
                  (urlInput st) (search st) (isAdding st) (toast st))
  /\ (forall (t i : string) (u ti ur : option string) (c : option Z) (st : State),
        on_DELETE (mkDeletePayload t (mkPartial (Some i) u ti ur c)) st
        = mkState (removeById i (bookmarks st)) (titleInput st)
                  (urlInput st) (search st) (isAdding st) (toast st)).
Proof.
  split; [| split; [| split; [| split]]]; try reflexivity.
  - intros r s. destruct (upsert_cases r s) as [[_ E] | [_ E]]; auto.
  - intros r s. destruct (upsert_cases r s) as [[_ E] | [_ E]]; rewrite E;
      [reflexivity |].
    rewrite !removeById_filter. simpl. now rewrite String.eqb_refl.
  - intros i s. rewrite removeById_filter. apply filter_Selects.
    intros b. now rewrite negb_true_iff, String.eqb_neq.
Qed.

(* ================================================================== *)
(** ** The order of the list *)

Section Order.

Import DashboardPage.

Lemma insert_desc_In b x l :
  In x (insert_desc b l) <-> x = b \/ In x l.
Proof.
  induction l as [| y l IH]; simpl.
  - intuition congruence.
  - destruct (created_at y <=? created_at b)%Z; simpl; [intuition congruence |].
    rewrite IH. intuition congruence.
Qed.

Lemma order_desc_In x l : In x (order_desc l) <-> In x l.
Proof.
  induction l as [| y l IH]; simpl; [reflexivity |].
  rewrite insert_desc_In, IH. intuition congruence.
Qed.

Lemma insert_desc_sorted b l :
  sorted_desc l -> sorted_desc (insert_desc b l).
Proof.
  unfold sorted_desc.
  induction 1 as [| y l Hl IH Hy]; simpl; [repeat constructor |].
  destruct (created_at y <=? created_at b)%Z eqn:E.
  - apply Z.leb_le in E. constructor; [now constructor |].
    constructor; [assumption |].
    rewrite Forall_forall in *. intros x Hx. specialize (Hy x Hx). lia.
  - apply Z.leb_gt in E. constructor; [assumption |].
    rewrite Forall_forall in *. intros x Hx.
    apply insert_desc_In in Hx. destruct Hx as [-> | Hx]; [lia | auto].
Qed.

Lemma order_desc_sorted l : sorted_desc (order_desc l).
Proof.
  induction l as [| b l IH]; simpl; [constructor |].
  now apply insert_desc_sorted.
Qed.

Lemma not_sorted_desc_head a b l :
  (created_at a < created_at b)%Z -> ~ sorted_desc (a :: b :: l).
Proof.
  intros Hlt Hs. inversion Hs as [| ? ? _ Hall]; subst.
  inversion Hall as [| ? ? Hab _]; subst. lia.
Qed.

End Order.

(** C2, as the claim states it: the list seeded with A (10) and B (20) is
    newest first, but after the insertion of a record created earlier than
    both (5) it is not: the record is put in front, the list is not sorted
    again. *)
Lemma insert_of_older_record_breaks_order :
  DashboardPage.initialBookmarks
    (DashboardPage.select_bookmarks "u" [rec_A; rec_B]) = [rec_B; rec_A]
  /\ upsertIfAbsent rec_old [rec_B; rec_A] = [rec_old; rec_B; rec_A]
  /\ ~ sorted_desc (upsertIfAbsent rec_old [rec_B; rec_A]).
Proof.
  split; [reflexivity |]. split; [reflexivity |].
  apply not_sorted_desc_head. reflexivity.
Qed.

(** C2 (amended): the snapshot that seeds the list holds the user's rows
    newest first; a removal keeps a newest-first list newest first; an
    insertion puts the record in front of the list as it is, without
    sorting, and keeps a newest-first list newest first when no entry
    of the list is more recent than the record; and seeded with A (10) and
    B (20), the list after inserting C (30) is shown unfiltered as
    C, B, A. *)
Theorem list_order_after_mutations :
  (forall uid table,
      sorted_desc (DashboardPage.initialBookmarks
                     (DashboardPage.select_bookmarks uid table))
      /\ forall b,
          In b (DashboardPage.initialBookmarks
                  (DashboardPage.select_bookmarks uid table))
          <-> In b table /\ user_id b = uid)
  /\ (forall i s, sorted_desc s -> sorted_desc (removeById i s))
  /\ (forall r s,
        sorted_desc s ->
        (forall b, In b s -> (created_at b <= created_at r)%Z) ->
        sorted_desc (upsertIfAbsent r s))
  /\ (forall r s, upsertIfAbsent r s = s \/ upsertIfAbsent r s = r :: s)
  /\ filteredView ""
       (upsertIfAbsent rec_C
          (DashboardPage.initialBookmarks
             (DashboardPage.select_bookmarks "u" [rec_A; rec_B])))
     = [rec_C; rec_B; rec_A].
Proof.
  split; [| split; [| split; [| split]]].
  - intros uid table. simpl. split; [apply order_desc_sorted |].
    intros b. rewrite order_desc_In, filter_In.
    unfold DashboardPage.visible. rewrite String.eqb_eq. intuition congruence.
  - intros i s H. rewrite removeById_filter. now apply filter_sorted_desc.
  - intros r s Hs Hr. destruct (upsert_cases r s) as [[_ E] | [_ E]]; rewrite E;
      [assumption |].
    constructor; [assumption |]. now apply Forall_forall.
  - intros r s. destruct (upsert_cases r s) as [[_ E] | [_ E]]; auto.
  - reflexivity.
Qed.

Lemma list_order_after_mutations_witness :
  sorted_desc (upsertIfAbsent rec_C [rec_B; rec_A])
  /\ sorted_desc (removeById "b" [rec_B; rec_A]).
Proof.
  destruct list_order_after_mutations as [_ [Hrem [Hins _]]].
  assert (Hs : sorted_desc [rec_B; rec_A]).
  { repeat constructor. simpl. lia. }
  split.
  - apply Hins; [exact Hs |].
    intros b [<- | [<- | []]]; simpl; lia.
  - apply Hrem. exact Hs.
Defined.

(* ================================================================== *)
(** ** Searching *)

Section Strings.

Local Open Scope string_scope.

Lemma startsWith_prefix s p :
  Js.startsWith s p = true <-> exists post, s = p ++ post.
Proof.
  revert s. induction p as [| b p IH]; intros s; simpl.
  - split; [intros _; now exists s | reflexivity].
  - destruct s as [| a s].
    + split; [discriminate | intros [post H]; discriminate H].
    + rewrite andb_true_iff, Ascii.eqb_eq, IH. split.
      * intros [-> [post ->]]. now exists post.
      * intros [post H]. injection H as -> ->. split; [reflexivity |].
        now exists post.
Qed.

End Strings.

Section Utf16Lemmas.

Implicit Types (s p sub t q : Utf16.text).

Lemma utf16_startsWith_prefix s p :
  Utf16.startsWith s p = true <-> exists post, s = p ++ post.
Proof.
  revert s. induction p as [| b p IH]; intros s; simpl.
  - split; [intros _; now exists s | reflexivity].
  - destruct s as [| a s].
    + split; [discriminate | intros [post H]; discriminate H].
    + rewrite andb_true_iff, N.eqb_eq, IH. split.
      * intros [-> [post ->]]. now exists post.
      * intros [post H]. injection H as -> ->. split; [reflexivity |].
        now exists post.
Qed.

Lemma utf16_includes_occurs s sub :
  Utf16.includes s sub = true <-> Utf16.occurs sub s.
Proof.
  unfold Utf16.occurs. induction s as [| a s IH].
  - cbn [Utf16.includes]. rewrite orb_false_r, utf16_startsWith_prefix. split.
    + intros [post H]. now exists [], post.
    + intros [pre [post H]]. destruct pre as [| c pre]; [| discriminate H].
      now exists post.
  - cbn [Utf16.includes]. rewrite orb_true_iff, utf16_startsWith_prefix, IH.
    split.
    + intros [[post H] | [pre [post H]]].
      * now exists [], post.
      * exists (a :: pre), post. simpl. now rewrite H.
    + intros [pre [post H]]. destruct pre as [| c pre].
      * left. now exists post.
      * right. simpl in H. injection H as -> ->. now exists pre, post.
Qed.

Lemma utf16_includes_nil s : Utf16.includes s [] = true.
Proof. destruct s; reflexivity. Qed.

Lemma utf16_includes_trans t p q :
  Utf16.includes t p = true -> Utf16.includes p q = true ->
  Utf16.includes t q = true.
Proof.
  rewrite !utf16_includes_occurs.
  intros [a [b ->]] [c [d ->]]. exists (a ++ c), (d ++ b).
  now rewrite <- !app_assoc.
Qed.

Lemma utf16_matches_lowercased (lower : Utf16.text -> Utf16.text) q
  (b : Utf16.Bookmark) :
  Utf16.matches lower q b = true <-> Utf16.matches_lowercased lower q b.
Proof.
  unfold Utf16.matches, Utf16.matches_lowercased.
  now rewrite orb_true_iff, !utf16_includes_occurs.
Qed.

Lemma utf16_filter_Keeps (f : Utf16.Bookmark -> bool)
  (P : Utf16.Bookmark -> Prop) (l : list Utf16.Bookmark) :
  (forall b, f b = true <-> P b) -> Utf16.Keeps P l (filter f l).
Proof.
  intros H. induction l as [| b l IH]; [constructor |].
  simpl. destruct (f b) eqn:E.
  - apply Utf16.Keeps_keep; [now apply H | assumption].
  - apply Utf16.Keeps_skip; [| assumption].
    intros HP. apply H in HP. congruence.
Qed.

Lemma utf16_filter_sorted (f : Utf16.Bookmark -> bool) (l : list Utf16.Bookmark) :
  Utf16.sorted_desc l -> Utf16.sorted_desc (filter f l).
Proof.
  unfold Utf16.sorted_desc. induction 1 as [| b l Hl IH Hb]; [constructor |].
  simpl. destruct (f b); [| assumption].
  constructor; [assumption |].
  rewrite Forall_forall in *. intros x Hx.
  apply filter_In in Hx. now apply Hb.
Qed.

Lemma utf16_filter_implied (f g : Utf16.Bookmark -> bool)
  (l : list Utf16.Bookmark) :
  (forall b, f b = true -> g b = true) -> filter f (filter g l) = filter f l.
Proof.
  intros H. induction l as [| b l IH]; [reflexivity |].
  simpl. destruct (g b) eqn:Eg; simpl; rewrite IH; [reflexivity |].
  destruct (f b) eqn:Ef; [| reflexivity].
  apply H in Ef. congruence.
Qed.

Lemma utf16_filter_length (f : Utf16.Bookmark -> bool)
  (l : list Utf16.Bookmark) :
  List.length (filter f l) <= List.length l.
Proof.
  induction l as [| b l IH]; simpl; [lia |]. destruct (f b); simpl; lia.
Qed.

End Utf16Lemmas.

(** C5, as the claim states it.  The query of one capital sigma occurs,
    as it is, in the title of capital alpha and capital sigma; the filter
    does not return the record: the title is lower-cased to alpha and
    final sigma, the query to the other small sigma.  And the view for
    the empty query follows the list, which need not be newest first:
    after the insertion of an older record into [B, A] it is [O, B, A]. *)
Lemma search_misses_literal_occurrence :
  Utf16.occurs [931%N] (Utf16.title Utf16.rec_sigma)
  /\ Utf16.toLowerCase_latin_greek (Utf16.title Utf16.rec_sigma) = [945%N; 962%N]
  /\ Utf16.toLowerCase_latin_greek [931%N] = [963%N]
  /\ Utf16.filteredBookmarks Utf16.toLowerCase_latin_greek [931%N]
       [Utf16.rec_sigma] = []
  /\ filteredView "" (upsertIfAbsent rec_old [rec_B; rec_A])
     = [rec_old; rec_B; rec_A]
  /\ ~ sorted_desc (filteredView "" (upsertIfAbsent rec_old [rec_B; rec_A])).
Proof.
  split; [exists [913%N], []; reflexivity |].
  split; [reflexivity |]. split; [reflexivity |]. split; [reflexivity |].
  split; [reflexivity |].
  change (filteredView "" (upsertIfAbsent rec_old [rec_B; rec_A]))
    with [rec_old; rec_B; rec_A].
  apply not_sorted_desc_head. reflexivity.
Qed.

(** C5 (amended): whatever the platform's [toLowerCase] does, the filtered
    view for a query [q] is the list with exactly the records kept for
    which the lower-cased query occurs in the lower-cased title or in the
    lower-cased address, in their order in the list; so it is newest first
    when the list is; and with the empty query, whose lower case is empty,
    it is the whole list in the list's order. *)
Theorem filteredBookmarks_lowercased_subsequence
  (toLowerCase : Utf16.text -> Utf16.text) (q : Utf16.text)
  (s : list Utf16.Bookmark) :
  (toLowerCase [] = [] -> Utf16.filteredBookmarks toLowerCase [] s = s)
  /\ Utf16.Keeps (Utf16.matches_lowercased toLowerCase q) s
       (Utf16.filteredBookmarks toLowerCase q s)
  /\ (forall b, In b (Utf16.filteredBookmarks toLowerCase q s)
                <-> In b s /\ Utf16.matches_lowercased toLowerCase q b)
  /\ (Utf16.sorted_desc s ->
      Utf16.sorted_desc (Utf16.filteredBookmarks toLowerCase q s)).
Proof.
  unfold Utf16.filteredBookmarks. split; [| split; [| split]].
  - intros H0. induction s as [| b s IH]; [reflexivity |].
    simpl. unfold Utf16.matches at 1. rewrite H0, utf16_includes_nil.
    simpl. now rewrite IH.
  - apply utf16_filter_Keeps. intros b. apply utf16_matches_lowercased.
  - intros b. now rewrite filter_In, utf16_matches_lowercased.
  - apply utf16_filter_sorted.
Qed.

Lemma filteredBookmarks_lowercased_subsequence_witness :
  Utf16.filteredBookmarks Utf16.toLowerCase_latin_greek []
    [Utf16.rec_b; Utf16.rec_sigma] = [Utf16.rec_b; Utf16.rec_sigma]
  /\ Utf16.sorted_desc
       (Utf16.filteredBookmarks Utf16.toLowerCase_latin_greek
          (Utf16.of_string "EXAMPLE") [Utf16.rec_b; Utf16.rec_sigma]).
Proof.
  split.
  - apply (proj1 (filteredBookmarks_lowercased_subsequence
                    Utf16.toLowerCase_latin_greek []
                    [Utf16.rec_b; Utf16.rec_sigma])).
    reflexivity.
  - apply (proj2 (proj2 (proj2 (filteredBookmarks_lowercased_subsequence
                    Utf16.toLowerCase_latin_greek (Utf16.of_string "EXAMPLE")
                    [Utf16.rec_b; Utf16.rec_sigma])))).
    repeat constructor. simpl. lia.
Defined.


(* ================================================================== *)
(** ** Adding and deleting through the remote store *)

Section AddDelete.

Variable host_parser : string -> bool.
Variable parse_other : string -> string -> bool.
Variable user : string.

Lemma finalUrl_normalized st :
  finalUrl st = normalized (urlInput st).
Proof.
  unfold finalUrl, normalized. cbv zeta.
  destruct (Js.startsWith (Js.trim (urlInput st)) "http://");
    destruct (Js.startsWith (Js.trim (urlInput st)) "https://"); reflexivity.
Qed.

Lemma isValidUrl_absolute u :
  isValidUrl host_parser parse_other u = true
  <-> absolute_http_url host_parser parse_other u.
Proof.
  unfold isValidUrl, absolute_http_url.
  destruct (URL.protocol host_parser parse_other u) as [p |].
  - rewrite orb_true_iff, !String.eqb_eq. split.
    + intros H. now exists p.
    + intros [p' [E H]]. now injection E as ->.
  - split; [discriminate | intros [p' [E _]]; discriminate E].
Qed.

Lemma is_empty_true s : Js.is_empty s = true <-> s = "".
Proof. destruct s; simpl; split; congruence. Qed.

Lemma submit_cases st :
  (handleAddBookmark_submit host_parser parse_other user st
     = (showToast "Please enter a title" error st, None)
   /\ Js.trim (titleInput st) = "")
  \/ (handleAddBookmark_submit host_parser parse_other user st
        = (showToast "Please enter a valid URL" error st, None)
      /\ Js.trim (titleInput st) <> ""
      /\ isValidUrl host_parser parse_other (finalUrl st) = false)
  \/ (handleAddBookmark_submit host_parser parse_other user st
        = (setIsAdding true st,
           Some (mkInsertRow (Js.trim (titleInput st)) (finalUrl st) user))
      /\ Js.trim (titleInput st) <> ""
      /\ isValidUrl host_parser parse_other (finalUrl st) = true).
Proof.
  unfold handleAddBookmark_submit.
  destruct (Js.is_empty (Js.trim (titleInput st))) eqn:Et.
  - left. split; [reflexivity | now apply is_empty_true].
  - assert (Js.trim (titleInput st) <> "").
    { intros H. apply is_empty_true in H. congruence. }
    destruct (isValidUrl host_parser parse_other (finalUrl st)) eqn:Eu; simpl.
    + right. right. auto.
    + right. left. auto.
Qed.

Lemma javascript_url_rejected :
  isValidUrl host_parser parse_other (normalized "javascript:alert(1)") = false.
Proof.
  unfold isValidUrl.
  change (normalized "javascript:alert(1)") with "https://javascript:alert(1)".
  unfold URL.protocol.
  change (URL.scheme_start_state
            (URL.remove_tab_newline
               (URL.strip_trailing (URL.strip_leading "https://javascript:alert(1)"))))
    with (Some ("https", "//javascript:alert(1)")).
  cbv iota beta.
  change (String.eqb "https" "http" || String.eqb "https" "https") with true.
  cbv iota. unfold URL.parse_http.
  change (URL.after_credentials
            (URL.authority (URL.ignore_slashes "//javascript:alert(1)")))
    with ("javascript:alert(1)", false).
  cbv iota beta.
  change (URL.host_state "javascript:alert(1)" false "")
    with ("javascript", Some "alert(1)").
  cbv iota beta. simpl andb. cbv iota.
  change (Js.is_empty "javascript") with false. cbv iota.
  change (URL.port_state "alert(1)") with false.
  destruct (host_parser "javascript"); reflexivity.
Qed.

End AddDelete.

(** C4: the create handler stops with a validation error exactly when the
    title is empty once trimmed or the normalized address is not an
    absolute http or https URL; it then shows an inline error message,
    leaves the list alone and makes no call to the remote store; otherwise
    it makes exactly one insert call, with the trimmed title and the
    normalized address.  The address "javascript:alert(1)" is rejected,
    whatever the title, and nothing is sent. *)
Theorem create_validation
  (host_parser : string -> bool) (parse_other : string -> string -> bool)
  (user : string) (insert_fails : InsertRow -> bool) (st : State) :
  (validation_error (handleAddBookmark_submit host_parser parse_other user st)
   <-> Js.trim (titleInput st) = ""
       \/ ~ absolute_http_url host_parser parse_other (normalized (urlInput st)))
  /\ (validation_error (handleAddBookmark_submit host_parser parse_other user st) ->
      snd (handleAddBookmark host_parser parse_other user insert_fails st) = []
      /\ bookmarks (fst (handleAddBookmark host_parser parse_other user insert_fails st))
         = bookmarks st
      /\ exists m,
          toast (fst (handleAddBookmark host_parser parse_other user insert_fails st))
          = Some (mkToast m error))
  /\ (~ validation_error (handleAddBookmark_submit host_parser parse_other user st) ->
      snd (handleAddBookmark host_parser parse_other user insert_fails st)
      = [Insert (mkInsertRow (Js.trim (titleInput st))
                             (normalized (urlInput st)) user)])
  /\ (urlInput st = "javascript:alert(1)" ->
      validation_error (handleAddBookmark_submit host_parser parse_other user st)
      /\ snd (handleAddBookmark host_parser parse_other user insert_fails st) = []).
Proof.
  assert (Hv : isValidUrl host_parser parse_other (finalUrl st) = false
               <-> ~ absolute_http_url host_parser parse_other
                       (normalized (urlInput st))).
  { rewrite <- finalUrl_normalized, <- isValidUrl_absolute.
    now rewrite not_true_iff_false. }
  unfold validation_error, handleAddBookmark.
  destruct (submit_cases host_parser parse_other user st)
    as [[E Ht] | [[E [Ht Hu]] | [E [Ht Hu]]]]; rewrite E; simpl.
  - split; [tauto |]. split; [intros _; eauto |].
    split; [intros H; now contradiction H |]. auto.
  - split; [split; [intros _; right; now apply Hv | reflexivity] |].
    split; [intros _; eauto |].
    split; [intros H; now contradiction H |]. auto.
  - split.
    { split; [discriminate |]. intros [H | H]; [contradiction |].
      apply Hv in H. congruence. }
    split; [discriminate |].
    split; [intros _; now rewrite finalUrl_normalized |].
    intros Hjs. exfalso. rewrite finalUrl_normalized, Hjs in Hu.
    rewrite javascript_url_rejected in Hu. discriminate Hu.
Qed.

Lemma create_validation_witness :
  snd (handleAddBookmark (fun _ => true) (fun _ _ => true) "u" (fun _ => false)
         (mkState [rec_A] "Click me" "javascript:alert(1)" "" false None)) = []
  /\ snd (handleAddBookmark (fun _ => true) (fun _ _ => true) "u" (fun _ => false)
            form_example)
     = [Insert (mkInsertRow "Example" "https://example.com" "u")].
Proof.
  split.
  - destruct (create_validation (fun _ => true) (fun _ _ => true) "u"
                (fun _ => false)
                (mkState [rec_A] "Click me" "javascript:alert(1)" "" false None))
      as [_ [_ [_ H]]].
    apply H. reflexivity.
  - destruct (create_validation (fun _ => true) (fun _ _ => true) "u"
                (fun _ => false) form_example) as [_ [_ [H _]]].
    apply H. unfold validation_error. simpl. discriminate.
Defined.

(** C7: when the insert call returns an error, the handler has made that
    one call and no other, shows the notification "Failed to add bookmark",
    and leaves the list and the form fields as they were, also when other
    events changed the state while the call was pending; when the delete
    call returns an error, the handler has made that one call, shows
    "Failed to delete bookmark" and leaves the list as it was. *)
Theorem persistence_error_keeps_list
  (host_parser : string -> bool) (parse_other : string -> string -> bool)
  (user : string) :
  (forall (insert_fails : InsertRow -> bool) (st : State) (st1 : State)
          (row : InsertRow),
      handleAddBookmark_submit host_parser parse_other user st = (st1, Some row) ->
      insert_fails row = true ->
      snd (handleAddBookmark host_parser parse_other user insert_fails st)
      = [Insert row]
      /\ fst (handleAddBookmark host_parser parse_other user insert_fails st)
         = mkState (bookmarks st) (titleInput st) (urlInput st) (search st) false
                   (Some (mkToast "Failed to add bookmark" error)))
  /\ (forall st' : State,
        handleAddBookmark_resume true st'
        = mkState (bookmarks st') (titleInput st') (urlInput st') (search st')
                  false (Some (mkToast "Failed to add bookmark" error)))
  /\ (forall (delete_fails : string -> bool) (i : string) (st : State),
        delete_fails i = true ->
        snd (handleDeleteBookmark delete_fails i st) = [Delete i]
        /\ fst (handleDeleteBookmark delete_fails i st)
           = mkState (bookmarks st) (titleInput st) (urlInput st) (search st)
                     (isAdding st)
                     (Some (mkToast "Failed to delete bookmark" error))).
Proof.
  split; [| split].
  - intros insert_fails st st1 row Hsub Hfail.
    unfold handleAddBookmark. rewrite Hsub, Hfail.
    destruct (submit_cases host_parser parse_other user st)
      as [[E _] | [[E _] | [E _]]]; rewrite E in Hsub; try discriminate Hsub.
    injection Hsub as <- _. split; reflexivity.
  - reflexivity.
  - intros delete_fails i st Hfail. unfold handleDeleteBookmark.
    rewrite Hfail. split; reflexivity.
Qed.

Lemma persistence_error_keeps_list_witness :
  bookmarks (fst (handleAddBookmark (fun _ => true) (fun _ _ => true) "u"
                    (fun _ => true) form_example)) = [rec_A]
  /\ bookmarks (fst (handleDeleteBookmark (fun _ => true) "a" form_example))
     = [rec_A].
Proof.
  destruct (persistence_error_keeps_list (fun _ => true) (fun _ _ => true) "u")
    as [Hadd [_ Hdel]].
  split.
  - destruct (Hadd (fun _ => true) form_example (setIsAdding true form_example)
                (mkInsertRow "Example" "https://example.com" "u")
                eq_refl eq_refl) as [_ E].
    rewrite E. reflexivity.
  - destruct (Hdel (fun _ => true) "a" form_example eq_refl) as [_ E].
    rewrite E. reflexivity.
Defined.

(** C3: what the code does on a successful add.  The form "Example",
    "example.com" is accepted and the row is inserted remotely; the handler
    then shows "Bookmark added!" and clears the form.  The list is the one
    it was: the new record is not merged in, and the only call made is the
    insert (nothing is published to other tabs).  In general no run of
    the add handler changes the list. *)
Theorem add_success_leaves_list :
  handleAddBookmark (fun _ => true) (fun _ _ => true) "u" (fun _ => false)
    form_example
  = (mkState [rec_A] "" "" "" false (Some (mkToast "Bookmark added!" success)),
     [Insert (mkInsertRow "Example" "https://example.com" "u")])
  /\ (forall host_parser parse_other user insert_fails st,
        bookmarks (fst (handleAddBookmark host_parser parse_other user
                          insert_fails st)) = bookmarks st).
Proof.
  split; [reflexivity |].
  intros host_parser parse_other user insert_fails st.
  unfold handleAddBookmark.
  destruct (submit_cases host_parser parse_other user st)
    as [[E _] | [[E _] | [E _]]]; rewrite E; try reflexivity.
  simpl. destruct (insert_fails _); reflexivity.
Qed.

(* ================================================================== *)
(** ** The subscription and its release *)

Section Subscription.

Lemma removeChannel_last (l : list (nat * Channel)) (n ref : nat) (ch : Channel) :
  (forall p, In p l -> fst p < ref) ->
  removeChannel ref (mkClient (l ++ [(ref, ch)]) n) = mkClient l n.
Proof.
  intros H. unfold removeChannel. simpl. f_equal.
  rewrite filter_app. simpl. rewrite Nat.eqb_refl. simpl.
  rewrite app_nil_r. induction l as [| p l IH]; [reflexivity |].
  simpl. assert (Hp : fst p < ref) by (apply H; simpl; auto).
  apply Nat.lt_neq, Nat.eqb_neq in Hp. rewrite Hp. simpl. f_equal.
  apply IH. intros q Hq. apply H. simpl. auto.
Qed.

Lemma mount_holds (user : string) (c0 c : Client) :
  channels c = channels c0 -> next_ref c0 <= next_ref c ->
  holds_one_channel c0 (mount user c).
Proof.
  intros Hc Hn. unfold holds_one_channel, mount, effect, subscribe. simpl.
  rewrite Hc. auto.
Qed.

Lemma cleanup_restores (c0 : Client) (m : Mounted) :
  client_wf c0 -> holds_one_channel c0 m ->
  cleanup (channel m) (client m) = mkClient (channels c0) (next_ref (client m)).
Proof.
  intros Hwf [Hch [Hlo _]]. unfold cleanup.
  destruct (client m) as [chs n] eqn:E. simpl in *. subst chs.
  apply removeChannel_last. intros p Hp. specialize (Hwf p Hp). lia.
Qed.

Lemma rerender_holds (u : string) (c0 : Client) (m : Mounted) :
  client_wf c0 -> holds_one_channel c0 m ->
  holds_one_channel c0 (rerender u m).
Proof.
  intros Hwf Hm. unfold rerender.
  destruct (String.eqb u (dep_user m)); [assumption |].
  rewrite (cleanup_restores c0 m Hwf Hm).
  apply mount_holds; [reflexivity |].
  destruct Hm as [_ [Hlo Hhi]]. simpl. lia.
Qed.

Lemma mounted_after_holds (user : string) (renders : list string) (c0 : Client) :
  client_wf c0 -> holds_one_channel c0 (mounted_after user renders c0).
Proof.
  intros Hwf. unfold mounted_after.
  assert (H0 : holds_one_channel c0 (mount user c0))
    by (apply mount_holds; [reflexivity | lia]).
  revert H0. generalize (mount user c0).
  induction renders as [| u renders IH]; intros m Hm; [assumption |].
  simpl. apply IH. now apply rerender_holds.
Qed.

End Subscription.

(** C8: what the code does over a session, here for the user "u" on a
    client that holds no channel.  At the mount the effect opens one
    subscription, the server push channel "bookmarks-realtime" with its
    listener for insertions and its listener for deletions, and nothing
    else; at the unmount the cleanup removes it; and after any session,
    whatever the renders in between, the client holds no channel. *)
Theorem session_opens_push_channel_only :
  channels (client (mount "u" fresh_client))
  = [(0, mkChannel "bookmarks-realtime"
           [ mkBinding INSERT "public" "bookmarks" "user_id=eq.u";
             mkBinding DELETE "public" "bookmarks" "user_id=eq.u" ])]
  /\ channels (unmount (mount "u" fresh_client)) = []
  /\ (forall user renders, channels (session user renders fresh_client) = []).
Proof.
  split; [reflexivity |]. split; [reflexivity |].
  intros user renders.
  assert (Hwf : client_wf fresh_client) by (intros p []).
  pose proof (mounted_after_holds user renders fresh_client Hwf) as Hm.
  unfold session, unmount. fold (mounted_after user renders fresh_client).
  now rewrite (cleanup_restores fresh_client _ Hwf Hm).
Qed.


(* ================================================================== *)
(** ** Sequences of change events: what the list holds afterwards *)

Section EventLemmas.

Implicit Types (s : list Bookmark) (r b : Bookmark) (i : string).

Lemma filter_NoDup_ids (f : Bookmark -> bool) s :
  NoDup (ids s) -> NoDup (ids (filter f s)).
Proof.
  induction s as [| b s IH]; intros H; [constructor |].
  simpl in H. inversion H as [| ? ? Hb Hs]; subst. simpl.
  destruct (f b); [| now apply IH].
  simpl. constructor; [| now apply IH].
  intros Hin. apply Hb. unfold ids in *. rewrite in_map_iff in *.
  destruct Hin as [x [E Hx]]. apply filter_In in Hx. exists x. tauto.
Qed.

Lemma filter_swap (f g : Bookmark -> bool) s :
  filter f (filter g s) = filter g (filter f s).
Proof.
  induction s as [| b s IH]; [reflexivity |].
  simpl. destruct (g b) eqn:Eg; destruct (f b) eqn:Ef; simpl;
    rewrite ?Eg, ?Ef, IH; reflexivity.
Qed.

Lemma deliver_bookmarks (e : Event) (st : State) :
  bookmarks (deliver e st)
  = match e with
    | Inserted p => upsertIfAbsent (new p) (bookmarks st)
    | Deleted p => delete_updater p (bookmarks st)
    end.
Proof. destruct e; reflexivity. Qed.

Lemma deliver_NoDup (e : Event) (st : State) :
  NoDup (ids (bookmarks st)) -> NoDup (ids (bookmarks (deliver e st))).
Proof.
  intros H. rewrite deliver_bookmarks. destruct e as [p | p].
  - now apply upsert_NoDup.
  - now apply filter_NoDup_ids.
Qed.

Lemma delete_updater_ids (p : DeletePayload) i s :
  In i (ids (delete_updater p s))
  <-> In i (ids s) /\ strict_neq i (old_id (old p)) = true.
Proof.
  unfold delete_updater, ids. rewrite !in_map_iff. split.
  - intros [b [E H]]. apply filter_In in H. destruct H as [H1 H2].
    subst i. split; [now exists b | assumption].
  - intros [[b [E H]] Hn]. subst i. exists b. split; [reflexivity |].
    apply filter_In. auto.
Qed.

Lemma upsert_ids r i s :
  In i (ids (upsertIfAbsent r s)) <-> In i (ids s) \/ id r = i.
Proof.
  destruct (upsert_cases r s) as [[Hin E] | [_ E]]; rewrite E; simpl.
  - split; [auto |]. intros [H | H]; [assumption | now subst i].
  - tauto.
Qed.

Lemma deliver_present (e : Event) i (st : State) :
  existsb (fun b => String.eqb (id b) i) (bookmarks (deliver e st))
  = present_step i (existsb (fun b => String.eqb (id b) i) (bookmarks st)) e.
Proof.
  apply eq_true_iff_eq. rewrite existsb_id_In, deliver_bookmarks.
  destruct e as [p | p]; simpl.
  - rewrite upsert_ids, orb_true_iff, existsb_id_In, String.eqb_eq. tauto.
  - rewrite delete_updater_ids, andb_true_iff, existsb_id_In. tauto.
Qed.

End EventLemmas.

(** X1: whatever insertion and deletion events arrive, in whatever order,
    a list whose identifiers are pairwise distinct keeps them pairwise
    distinct, and so do the cards rendered from it for any search text
    (their React keys are the identifiers); the events change nothing of
    the component's state but the list. *)
Theorem events_keep_ids_distinct (es : list Event) (st : State) :
  NoDup (ids (bookmarks st)) ->
  NoDup (ids (bookmarks (deliver_all es st)))
  /\ (forall q, NoDup (ids (filteredBookmarks (setSearch q (deliver_all es st)))))
  /\ deliver_all es st
     = mkState (bookmarks (deliver_all es st)) (titleInput st) (urlInput st)
               (search st) (isAdding st) (toast st).
Proof.
  revert st. induction es as [| e es IH]; intros st H.
  - split; [assumption |]. split; [| now destruct st].
    intros q. now apply filter_NoDup_ids.
  - unfold deliver_all in *. simpl.
    destruct (IH (deliver e st) (deliver_NoDup e st H)) as [H1 [H2 H3]].
    split; [assumption |]. split; [assumption |].
    rewrite H3 at 1. destruct e; reflexivity.
Qed.

Lemma events_keep_ids_distinct_witness :
  NoDup (ids (bookmarks
    (deliver_all [Inserted (mkInsertPayload "t" rec_C);
                  Inserted (mkInsertPayload "t" rec_C);
                  Deleted (mkDeletePayload "t" (mkPartial (Some "a") None None None None))]
       (initialState [rec_B; rec_A])))).
Proof.
  apply events_keep_ids_distinct.
  simpl. repeat constructor; simpl; intuition discriminate.
Defined.

(** X2: after any sequence of insertion and deletion events, an
    identifier is in the list exactly when the events that name it, taken
    in order from whether it was there at the start, say so: an insertion
    of it makes it present, a deletion of it makes it absent, every other
    event leaves it as it was.  In particular an insertion that arrives
    after the deletion of the same identifier puts the record back. *)
Theorem events_membership (es : list Event) (i : string) (st : State) :
  existsb (fun b => String.eqb (id b) i) (bookmarks (deliver_all es st))
  = present_after i es (existsb (fun b => String.eqb (id b) i) (bookmarks st)).
Proof.
  revert st. induction es as [| e es IH]; intros st; [reflexivity |].
  unfold deliver_all, present_after in *. simpl.
  now rewrite IH, deliver_present.
Qed.

(** X3: how two operations on the list compose.  Removals commute; a
    removal commutes with the insertion of a record with another
    identifier; a removal commutes with the search filter; an insertion
    right after the removal of the same identifier puts the record in
    front of what the removal left; and two insertions with different
    identifiers give the same entries in either order, up to the order of
    the two. *)
Theorem list_operations_compose :
  (forall i j s, removeById i (removeById j s) = removeById j (removeById i s))
  /\ (forall r i s,
        id r <> i ->
        removeById i (upsertIfAbsent r s) = upsertIfAbsent r (removeById i s))
  /\ (forall q i s,
        filteredView q (removeById i s) = removeById i (filteredView q s))
  /\ (forall r s,
        upsertIfAbsent r (removeById (id r) s) = r :: removeById (id r) s)
  /\ (forall r1 r2 s,
        id r1 <> id r2 ->
        Permutation (upsertIfAbsent r1 (upsertIfAbsent r2 s))
                    (upsertIfAbsent r2 (upsertIfAbsent r1 s))).
Proof.
  split; [| split; [| split; [| split]]].
  - intros i j s. rewrite !removeById_filter. apply filter_swap.
  - intros r i s Hne.
    assert (Hin : In (id r) (ids (removeById i s)) <-> In (id r) (ids s)).
    { unfold ids. rewrite !in_map_iff. split.
      - intros [b [E H]]. apply removeById_In in H. exists b. tauto.
      - intros [b [E H]]. exists b. split; [assumption |].
        apply removeById_In. split; [assumption | congruence]. }
    destruct (upsert_cases r s) as [[H E] | [H E]]; rewrite E.
    + symmetry. apply upsert_present. now apply Hin.
    + rewrite upsert_absent by (now rewrite Hin).
      rewrite !removeById_filter. simpl.
      apply String.eqb_neq in Hne. now rewrite Hne.
  - intros q i s. rewrite !removeById_filter.
    unfold filteredView, filteredBookmarks. simpl. apply filter_swap.
  - intros r s. apply upsert_absent, removeById_gone.
  - intros r1 r2 s Hne.
    assert (H12 : forall s', In (id r1) (ids (r2 :: s')) <-> In (id r1) (ids s')).
    { intros s'. simpl. split; [intros [H | H]; [congruence | assumption] | auto]. }
    assert (H21 : forall s', In (id r2) (ids (r1 :: s')) <-> In (id r2) (ids s')).
    { intros s'. simpl. split; [intros [H | H]; [congruence | assumption] | auto]. }
    destruct (upsert_cases r2 s) as [[Hb Eb] | [Hb Eb]];
      destruct (upsert_cases r1 s) as [[Ha Ea] | [Ha Ea]];
      repeat (rewrite Ea || rewrite Eb).
    + apply Permutation_refl.
    + rewrite upsert_present by (now apply H21). apply Permutation_refl.
    + rewrite upsert_present by (now apply H12). apply Permutation_refl.
    + rewrite upsert_absent by (now rewrite H12).
      rewrite upsert_absent by (now rewrite H21).
      apply perm_swap.
Qed.

Lemma list_operations_compose_witness :
  removeById "a" (upsertIfAbsent rec_C [rec_B; rec_A])
  = upsertIfAbsent rec_C (removeById "a" [rec_B; rec_A])
  /\ Permutation (upsertIfAbsent rec_C (upsertIfAbsent rec_old [rec_A]))
                 (upsertIfAbsent rec_old (upsertIfAbsent rec_C [rec_A])).
Proof.
  destruct list_operations_compose as [_ [H1 [_ [_ H2]]]].
  split; [apply H1 | apply H2]; simpl; discriminate.
Defined.

(* ================================================================== *)
(** ** Searching: refining the query *)

Section SearchLemmas.

Local Open Scope string_scope.

Lemma string_app_length (a b : string) :
  String.length (a ++ b) = String.length a + String.length b.
Proof. induction a as [| x a IH]; simpl; [reflexivity | now rewrite IH]. Qed.

End SearchLemmas.

(** X4: narrowing follows the lower-cased queries, whatever the
    platform's [toLowerCase] does.  When the lower-cased [q] occurs in the
    lower-cased [q'], every record shown for [q'] is shown for [q],
    filtering for [q'] what was shown for [q] gives what is shown for
    [q'], and [q'] shows no more entries than [q]; when each of the two
    lower-cased queries occurs in the other, both show the same
    records. *)
Theorem search_narrows_lowercased
  (toLowerCase : Utf16.text -> Utf16.text) (q q' : Utf16.text)
  (s : list Utf16.Bookmark) :
  Utf16.includes (toLowerCase q') (toLowerCase q) = true ->
  Utf16.filteredBookmarks toLowerCase q' (Utf16.filteredBookmarks toLowerCase q s)
  = Utf16.filteredBookmarks toLowerCase q' s
  /\ (forall b, In b (Utf16.filteredBookmarks toLowerCase q' s) ->
                In b (Utf16.filteredBookmarks toLowerCase q s))
  /\ List.length (Utf16.filteredBookmarks toLowerCase q' s)
     <= List.length (Utf16.filteredBookmarks toLowerCase q s)
  /\ (Utf16.includes (toLowerCase q) (toLowerCase q') = true ->
      Utf16.filteredBookmarks toLowerCase q s
      = Utf16.filteredBookmarks toLowerCase q' s).
Proof.
  intros Hq.
  assert (Himp : forall x y b,
             Utf16.includes (toLowerCase y) (toLowerCase x) = true ->
             Utf16.matches toLowerCase y b = true ->
             Utf16.matches toLowerCase x b = true).
  { intros x y b Hxy. unfold Utf16.matches. rewrite !orb_true_iff.
    intros [H | H]; [left | right];
      exact (utf16_includes_trans _ _ _ H Hxy). }
  assert (E : Utf16.filteredBookmarks toLowerCase q'
                (Utf16.filteredBookmarks toLowerCase q s)
              = Utf16.filteredBookmarks toLowerCase q' s).
  { unfold Utf16.filteredBookmarks. apply utf16_filter_implied.
    intros b. now apply Himp. }
  split; [exact E |]. split; [| split].
  - intros b Hb. unfold Utf16.filteredBookmarks in *.
    apply filter_In in Hb. apply filter_In. split; [tauto |].
    apply (Himp q q'); tauto.
  - rewrite <- E. unfold Utf16.filteredBookmarks at 1.
    apply utf16_filter_length.
  - intros Hq'. unfold Utf16.filteredBookmarks.
    apply filter_ext. intros b. apply eq_true_iff_eq.
    split; [apply (Himp q' q) | apply (Himp q q')]; assumption.
Qed.

Lemma search_narrows_lowercased_witness :
  Utf16.filteredBookmarks Utf16.toLowerCase_latin_greek (Utf16.of_string "B.Ex")
    (Utf16.filteredBookmarks Utf16.toLowerCase_latin_greek (Utf16.of_string "ex")
       [Utf16.rec_sigma; Utf16.rec_b; Utf16.rec_a])
  = Utf16.filteredBookmarks Utf16.toLowerCase_latin_greek (Utf16.of_string "B.Ex")
      [Utf16.rec_sigma; Utf16.rec_b; Utf16.rec_a].
Proof.
  exact (proj1 (search_narrows_lowercased Utf16.toLowerCase_latin_greek
                  (Utf16.of_string "ex") (Utf16.of_string "B.Ex")
                  [Utf16.rec_sigma; Utf16.rec_b; Utf16.rec_a] eq_refl)).
Defined.


(* ================================================================== *)
(** ** The rows the add handler sends *)

Section TrimLemmas.

Lemma trimStart_starts (s : string) : starts_white (Js.trimStart s) = false.
Proof.
  induction s as [| c s IH]; [reflexivity |].
  simpl. destruct (Js.is_white c) eqn:E; [assumption | simpl; assumption].
Qed.

Lemma trimEnd_starts (s : string) :
  starts_white s = false -> starts_white (Js.trimEnd s) = false.
Proof.
  destruct s as [| c s]; [reflexivity |].
  simpl. intros H. rewrite H. destruct (Js.trimEnd s); simpl; assumption.
Qed.

Lemma trimEnd_ends (s : string) : ends_white (Js.trimEnd s) = false.
Proof.
  induction s as [| c s IH]; [reflexivity |].
  simpl. destruct (Js.trimEnd s) as [| d t] eqn:E.
  - destruct (Js.is_white c) eqn:Ec; simpl; [reflexivity | assumption].
  - exact IH.
Qed.

Lemma trim_no_outer_white (s : string) :
  starts_white (Js.trim s) = false /\ ends_white (Js.trim s) = false.
Proof.
  unfold Js.trim. split.
  - apply trimEnd_starts, trimStart_starts.
  - apply trimEnd_ends.
Qed.

End TrimLemmas.

(** X5: every row the add handler sends to the remote store is well
    formed: its title is the typed title trimmed, is not empty and has no
    white space at either end; its address starts with "http://" or
    "https://" and passes [isValidUrl]; and its owner is the signed-in
    user, so the insert policy of the table accepts it. *)
Theorem sent_row_well_formed
  (host_parser : string -> bool) (parse_other : string -> string -> bool)
  (user : string) (st st1 : State) (row : InsertRow) :
  handleAddBookmark_submit host_parser parse_other user st = (st1, Some row) ->
  row_title row = Js.trim (titleInput st)
  /\ row_title row <> ""
  /\ starts_white (row_title row) = false
  /\ ends_white (row_title row) = false
  /\ (Js.startsWith (row_url row) "http://" = true
      \/ Js.startsWith (row_url row) "https://" = true)
  /\ isValidUrl host_parser parse_other (row_url row) = true
  /\ row_user_id row = user
  /\ Db.insert_policy user row = true.
Proof.
  intros Hsub.
  destruct (submit_cases host_parser parse_other user st)
    as [[E _] | [[E _] | [E [Ht Hu]]]]; rewrite E in Hsub;
    try discriminate Hsub.
  injection Hsub as _ <-. cbn [row_title row_url row_user_id].
  destruct (trim_no_outer_white (titleInput st)) as [Hs He].
  split; [reflexivity |]. split; [exact Ht |].
  split; [exact Hs |]. split; [exact He |].
  split; [| split; [exact Hu | split; [reflexivity |]]].
  - unfold finalUrl.
    destruct (Js.startsWith (Js.trim (urlInput st)) "http://") eqn:E1;
      cbn [negb andb]; [left; exact E1 |].
    destruct (Js.startsWith (Js.trim (urlInput st)) "https://") eqn:E2;
      cbn [negb andb]; [right; exact E2 |].
    right. apply startsWith_prefix. now exists (Js.trim (urlInput st)).
  - unfold Db.insert_policy. simpl. apply String.eqb_refl.
Qed.

Lemma sent_row_well_formed_witness :
  row_title (mkInsertRow "Example" "https://example.com" "u") <> ""
  /\ Db.insert_policy "u" (mkInsertRow "Example" "https://example.com" "u") = true.
Proof.
  destruct (sent_row_well_formed (fun _ => true) (fun _ _ => true) "u"
              (mkState [] "  Example " "example.com" "" false None)
              (setIsAdding true (mkState [] "  Example " "example.com" "" false None))
              (mkInsertRow "Example" "https://example.com" "u") eq_refl)
    as [_ [H1 [_ [_ [_ [_ [_ H2]]]]]]].
  split; assumption.
Defined.

(** X6: every run of the add handler ends in one of three ways, and in
    each the list and the search text are as they were.  Validation
    failed: an error message, no call, the form as typed.  The call
    failed: an error message, one call, the form as typed, the button
    enabled.  The call succeeded: the message "Bookmark added!", one call,
    both form fields cleared, the button enabled. *)
Theorem add_handler_outcomes
  (host_parser : string -> bool) (parse_other : string -> string -> bool)
  (user : string) (insert_fails : InsertRow -> bool) (st : State) :
  (exists m,
      handleAddBookmark host_parser parse_other user insert_fails st
      = (mkState (bookmarks st) (titleInput st) (urlInput st) (search st)
                 (isAdding st) (Some (mkToast m error)), []))
  \/ (exists row,
        insert_fails row = true
        /\ handleAddBookmark host_parser parse_other user insert_fails st
           = (mkState (bookmarks st) (titleInput st) (urlInput st) (search st)
                      false (Some (mkToast "Failed to add bookmark" error)),
              [Insert row]))
  \/ (exists row,
        insert_fails row = false
        /\ handleAddBookmark host_parser parse_other user insert_fails st
           = (mkState (bookmarks st) "" "" (search st) false
                      (Some (mkToast "Bookmark added!" success)),
              [Insert row])).
Proof.
  unfold handleAddBookmark.
  destruct (submit_cases host_parser parse_other user st)
    as [[E _] | [[E _] | [E _]]]; rewrite E.
  - left. eexists. reflexivity.
  - left. eexists. reflexivity.
  - right.
    destruct (insert_fails (mkInsertRow (Js.trim (titleInput st))
                                        (finalUrl st) user)) eqn:Ef.
    + left. eexists. split; [exact Ef | reflexivity].
    + right. eexists. split; [exact Ef | reflexivity].
Qed.

(* ================================================================== *)
(** ** The texts of a card *)

Section CardLemmas.

Lemma substring_0_length (n : nat) (s : string) :
  String.length (substring 0 n s) = Nat.min n (String.length s).
Proof.
  revert s. induction n as [| n IH]; intros [| c s]; simpl; try reflexivity.
  now rewrite IH.
Qed.

Lemma shortened_length (e : ascii) (max : nat) (s : string) :
  String.length
    (if max <? String.length s
     then (substring 0 max s ++ String e "")%string
     else s) <= S max.
Proof.
  destruct (max <? String.length s) eqn:E.
  - apply Nat.ltb_lt in E.
    rewrite string_app_length, substring_0_length. simpl. lia.
  - apply Nat.ltb_ge in E. lia.
Qed.

End CardLemmas.

(** X7: the address text of a card is never longer than [max] code units
    plus the ellipsis (41 with the default), whether the address parses
    as a URL or not; an address that does not parse and is at most [max]
    long is shown as it is; and a longer one is shown as its first [max]
    code units followed by the ellipsis. *)
Theorem truncateUrl_bounded
  (host_parser : string -> bool) (parse_other : string -> string -> bool)
  (hostname pathname : string -> string) (ellipsis : ascii)
  (url : string) (max : nat) :
  String.length
    (BookmarkCard.truncateUrl host_parser parse_other hostname pathname
       ellipsis url max) <= S max
  /\ String.length
       (BookmarkCard.truncateUrl host_parser parse_other hostname pathname
          ellipsis url BookmarkCard.truncateUrl_default_max) <= 41
  /\ (URL.protocol host_parser parse_other url = None ->
      (String.length url <= max ->
       BookmarkCard.truncateUrl host_parser parse_other hostname pathname
         ellipsis url max = url)
      /\ (max < String.length url ->
          BookmarkCard.truncateUrl host_parser parse_other hostname pathname
            ellipsis url max
          = (substring 0 max url ++ String ellipsis "")%string)).
Proof.
  unfold BookmarkCard.truncateUrl, BookmarkCard.truncateUrl_default_max.
  split; [| split].
  - destruct (URL.protocol host_parser parse_other url); apply shortened_length.
  - destruct (URL.protocol host_parser parse_other url); apply shortened_length.
  - intros ->. split; intros H.
    + apply Nat.ltb_ge in H. now rewrite H.
    + apply Nat.ltb_lt in H. now rewrite H.
Qed.

Lemma truncateUrl_bounded_witness :
  BookmarkCard.truncateUrl (fun _ => true) (fun _ _ => true)
    (fun _ => "") (fun _ => "") "~" "not a url" 40 = "not a url".
Proof.
  destruct (truncateUrl_bounded (fun _ => true) (fun _ _ => true)
              (fun _ => "") (fun _ => "") "~" "not a url" 40) as [_ [_ H]].
  destruct (H eq_refl) as [H1 _]. apply H1. simpl. lia.
Defined.

(** X8: the age a card shows depends on the elapsed milliseconds alone,
    by plain thresholds: under a minute (also for a date in the future)
    "Just now"; under an hour the whole minutes, 1 to 59; under a day the
    whole hours, 1 to 23; under a week the whole days, 1 to 6; from a week
    on, and for a date that does not parse, the locale date. *)
Theorem timeAgo_thresholds (toLocaleDateString : Z -> string) (now t : Z) :
  ((now - t < 60000)%Z ->
   BookmarkCard.timeAgo toLocaleDateString now (Some t) = "Just now")
  /\ ((60000 <= now - t < 3600000)%Z ->
      BookmarkCard.timeAgo toLocaleDateString now (Some t)
      = (BookmarkCard.decimal ((now - t) / 60000) ++ "m ago")%string
      /\ (1 <= (now - t) / 60000 < 60)%Z)
  /\ ((3600000 <= now - t < 86400000)%Z ->
      BookmarkCard.timeAgo toLocaleDateString now (Some t)
      = (BookmarkCard.decimal ((now - t) / 3600000) ++ "h ago")%string
      /\ (1 <= (now - t) / 3600000 < 24)%Z)
  /\ ((86400000 <= now - t < 604800000)%Z ->
      BookmarkCard.timeAgo toLocaleDateString now (Some t)
      = (BookmarkCard.decimal ((now - t) / 86400000) ++ "d ago")%string
      /\ (1 <= (now - t) / 86400000 < 7)%Z)
  /\ ((604800000 <= now - t)%Z ->
      BookmarkCard.timeAgo toLocaleDateString now (Some t) = toLocaleDateString t)
  /\ BookmarkCard.timeAgo toLocaleDateString now None = "Invalid Date".
Proof.
  set (d := (now - t)%Z).
  assert (Hh : (d / 60000 / 60 = d / 3600000)%Z)
    by (rewrite Z.div_div by lia; reflexivity).
  assert (Hd : (d / 60000 / 60 / 24 = d / 86400000)%Z)
    by (rewrite !Z.div_div by lia; reflexivity).
  unfold BookmarkCard.timeAgo. fold d. cbv zeta. rewrite Hd, Hh.
  assert (Bm : forall k, ((d / 60000 <? k) = true <-> d < 60000 * k)%Z).
  { intros k. rewrite Z.ltb_lt. split; intros H.
    - apply Z.nle_gt; intros C.
      apply (Z.div_le_lower_bound d 60000 k) in C; lia.
    - apply Z.div_lt_upper_bound; lia. }
  assert (Bh : forall k, ((d / 3600000 <? k) = true <-> d < 3600000 * k)%Z).
  { intros k. rewrite Z.ltb_lt. split; intros H.
    - apply Z.nle_gt; intros C.
      apply (Z.div_le_lower_bound d 3600000 k) in C; lia.
    - apply Z.div_lt_upper_bound; lia. }
  assert (Bd : forall k, ((d / 86400000 <? k) = true <-> d < 86400000 * k)%Z).
  { intros k. rewrite Z.ltb_lt. split; intros H.
    - apply Z.nle_gt; intros C.
      apply (Z.div_le_lower_bound d 86400000 k) in C; lia.
    - apply Z.div_lt_upper_bound; lia. }
  assert (Lm : forall k, ((d / 60000 <? k) = false <-> 60000 * k <= d)%Z).
  { intros k. rewrite <- not_true_iff_false, Bm. lia. }
  assert (Lh : forall k, ((d / 3600000 <? k) = false <-> 3600000 * k <= d)%Z).
  { intros k. rewrite <- not_true_iff_false, Bh. lia. }
  assert (Ld : forall k, ((d / 86400000 <? k) = false <-> 86400000 * k <= d)%Z).
  { intros k. rewrite <- not_true_iff_false, Bd. lia. }
  split; [| split; [| split; [| split; [| split]]]].
  - intros H. rewrite (proj2 (Bm 1%Z)) by lia. reflexivity.
  - intros H. rewrite (proj2 (Lm 1%Z)), (proj2 (Bm 60%Z)) by lia.
    split; [reflexivity |].
    pose proof (proj2 (Lm 1%Z)) as A. pose proof (proj2 (Bm 60%Z)) as B.
    rewrite Z.ltb_ge in A. rewrite Z.ltb_lt in B. lia.
  - intros H. rewrite (proj2 (Lm 1%Z)), (proj2 (Lm 60%Z)), (proj2 (Bh 24%Z)) by lia.
    split; [reflexivity |].
    pose proof (proj2 (Lh 1%Z)) as A. pose proof (proj2 (Bh 24%Z)) as B.
    rewrite Z.ltb_ge in A. rewrite Z.ltb_lt in B. lia.
  - intros H. rewrite (proj2 (Lm 1%Z)), (proj2 (Lm 60%Z)), (proj2 (Lh 24%Z)),
      (proj2 (Bd 7%Z)) by lia.
    split; [reflexivity |].
    pose proof (proj2 (Ld 1%Z)) as A. pose proof (proj2 (Bd 7%Z)) as B.
    rewrite Z.ltb_ge in A. rewrite Z.ltb_lt in B. lia.
  - intros H. rewrite (proj2 (Lm 1%Z)), (proj2 (Lm 60%Z)), (proj2 (Lh 24%Z)),
      (proj2 (Ld 7%Z)) by lia.
    reflexivity.
  - reflexivity.
Qed.

Lemma timeAgo_thresholds_witness :
  BookmarkCard.timeAgo (fun _ => "Jan 1") 7260000 (Some 0%Z) = "2h ago"
  /\ BookmarkCard.timeAgo (fun _ => "Jan 1") 0 (Some 5000%Z) = "Just now".
Proof.
  destruct (timeAgo_thresholds (fun _ => "Jan 1") 7260000 0)
    as [_ [_ [H _]]].
  destruct (timeAgo_thresholds (fun _ => "Jan 1") 0 5000) as [H' _].
  split.
  - destruct H as [H _]; [simpl; lia |]. rewrite H. reflexivity.
  - apply H'. simpl. lia.
Defined.

(** X9: every address the add handler sends to the remote store parses
    when a card shows it: the card gets a favicon address (never the
    fallback icon) and shows the host name and path of the address,
    shortened, rather than the raw text. *)
Theorem sent_url_renders
  (host_parser : string -> bool) (parse_other : string -> string -> bool)
  (hostname pathname : string -> string) (ellipsis : ascii)
  (user : string) (st st1 : State) (row : InsertRow) (max : nat) :
  handleAddBookmark_submit host_parser parse_other user st = (st1, Some row) ->
  BookmarkCard.getFaviconUrl host_parser parse_other hostname (row_url row)
  = Some ("https://www.google.com/s2/favicons?domain="
            ++ hostname (row_url row) ++ "&sz=32")%string
  /\ BookmarkCard.truncateUrl host_parser parse_other hostname pathname
       ellipsis (row_url row) max
     = (if max <? String.length (hostname (row_url row) ++ pathname (row_url row))
        then (substring 0 max (hostname (row_url row) ++ pathname (row_url row))
              ++ String ellipsis "")%string
        else (hostname (row_url row) ++ pathname (row_url row))%string).
Proof.
  intros Hsub.
  destruct (submit_cases host_parser parse_other user st)
    as [[E _] | [[E _] | [E [_ Hu]]]]; rewrite E in Hsub;
    try discriminate Hsub.
  injection Hsub as _ <-. cbn [row_url].
  unfold isValidUrl in Hu.
  unfold BookmarkCard.getFaviconUrl, BookmarkCard.truncateUrl.
  destruct (URL.protocol host_parser parse_other (finalUrl st));
    [split; reflexivity | discriminate Hu].
Qed.

Lemma sent_url_renders_witness :
  BookmarkCard.getFaviconUrl (fun _ => true) (fun _ _ => true)
    (fun _ => "example.com") "https://example.com"
  = Some "https://www.google.com/s2/favicons?domain=example.com&sz=32".
Proof.
  exact (proj1 (sent_url_renders (fun _ => true) (fun _ _ => true)
                  (fun _ => "example.com") (fun _ => "/") "~" "u"
                  form_example (setIsAdding true form_example)
                  (mkInsertRow "Example" "https://example.com" "u") 40
                  eq_refl)).
Defined.

(* ================================================================== *)
(** ** The subscription follows the user *)

Section FilterLemmas.

Lemma last_cons_default (u d : string) (rs : list string) :
  last (u :: rs) d = last rs u.
Proof.
  revert u d. induction rs as [| v rs IH]; intros u d; [reflexivity |].
  change (last (u :: v :: rs) d) with (last (v :: rs) d).
  now rewrite !IH.
Qed.

Lemma rerender_dep_user (u : string) (m : Mounted) :
  dep_user (rerender u m) = u.
Proof.
  unfold rerender. destruct (String.eqb u (dep_user m)) eqn:E.
  - apply String.eqb_eq in E. now symmetry.
  - reflexivity.
Qed.

Lemma mounted_after_dep_user (user : string) (renders : list string) (c : Client) :
  dep_user (mounted_after user renders c) = last renders user.
Proof.
  unfold mounted_after.
  assert (H : dep_user (mount user c) = user) by reflexivity.
  revert H. generalize (mount user c). revert user.
  induction renders as [| u renders IH]; intros user m H; [exact H |].
  simpl fold_left. rewrite last_cons_default.
  apply IH. apply rerender_dep_user.
Qed.

End FilterLemmas.

(** X10: while the view is mounted, the one channel the component holds
    is the one for the user of the latest render: its topic is
    "bookmarks-realtime" and both of its listeners, for insertions and for
    deletions, are filtered to that user's rows. *)
Theorem subscription_follows_user
  (user : string) (renders : list string) (c : Client) :
  client_wf c ->
  exists ref,
    channels (client (mounted_after user renders c))
    = channels c
      ++ [(ref,
           mkChannel "bookmarks-realtime"
             [ mkBinding INSERT "public" "bookmarks"
                 ("user_id=eq." ++ last renders user)%string;
               mkBinding DELETE "public" "bookmarks"
                 ("user_id=eq." ++ last renders user)%string ])].
Proof.
  intros Hwf.
  destruct (mounted_after_holds user renders c Hwf) as [H _].
  rewrite mounted_after_dep_user in H.
  exists (channel (mounted_after user renders c)). exact H.
Qed.

Lemma subscription_follows_user_witness :
  exists ref,
    channels (client (mounted_after "u" ["v"; "w"] fresh_client))
    = [(ref,
        mkChannel "bookmarks-realtime"
          [ mkBinding INSERT "public" "bookmarks" "user_id=eq.w";
            mkBinding DELETE "public" "bookmarks" "user_id=eq.w" ])].
Proof.
  assert (Hwf : client_wf fresh_client) by (intros p []).
  exact (subscription_follows_user "u" ["v"; "w"] fresh_client Hwf).
Defined.

(* ================================================================== *)
(** ** The header *)

(** X11: the name shown in the header is never empty: it is the full name
    of the profile when there is one and it is not empty, else the e-mail
    address when there is one and it is not empty, else "User"; so the
    letter of the fallback avatar, its first character, is always
    there. *)
Theorem userName_never_empty (full_name email : option string) :
  userName full_name email <> ""
  /\ String.length (charAt0 (userName full_name email)) = 1
  /\ (forall n, full_name = Some n -> n <> "" -> userName full_name email = n)
  /\ (forall e, (full_name = None \/ full_name = Some "") ->
                email = Some e -> e <> "" -> userName full_name email = e)
  /\ ((full_name = None \/ full_name = Some "") ->
      (email = None \/ email = Some "") ->
      userName full_name email = "User").
Proof.
  unfold userName, js_or.
  destruct full_name as [[| c n] |]; destruct email as [[| d e] |]; simpl;
    (split; [discriminate |]); (split; [reflexivity |]);
    (split; [intros ? H1 H2; try discriminate H1;
             injection H1 as <-; try reflexivity; now contradiction H2 |]);
    (split; [intros ? [H0 | H0] H1 H2; try discriminate H0;
             try discriminate H1; injection H1 as <-;
             try reflexivity; now contradiction H2 |]);
    intros [H0 | H0] [H1 | H1]; try discriminate H0; try discriminate H1;
    reflexivity.
Qed.

(* ================================================================== *)
(** ** The table, the snapshot and the list kept by events *)

Section DbLemmas.

Import DashboardPage.

Implicit Types (l table : list Bookmark) (b : Bookmark).

Lemma insert_desc_front b l :
  (forall x, In x l -> (created_at x <= created_at b)%Z) ->
  insert_desc b l = b :: l.
Proof.
  destruct l as [| x l]; [reflexivity |]. intros H. simpl.
  assert (Hx : (created_at x <= created_at b)%Z) by (apply H; simpl; auto).
  apply Z.leb_le in Hx. now rewrite Hx.
Qed.

Lemma insert_desc_filter (f : Bookmark -> bool) b l :
  sorted_desc l ->
  filter f (insert_desc b l)
  = if f b then insert_desc b (filter f l) else filter f l.
Proof.
  unfold sorted_desc. induction 1 as [| x l Hl IH Hx].
  - simpl. destruct (f b); reflexivity.
  - simpl insert_desc. destruct (created_at x <=? created_at b)%Z eqn:E.
    + change (filter f (b :: x :: l))
        with (if f b then b :: filter f (x :: l) else filter f (x :: l)).
      destruct (f b); [| reflexivity].
      symmetry. apply insert_desc_front. intros y Hy.
      apply filter_In in Hy. destruct Hy as [[<- | Hy] _].
      * now apply Z.leb_le.
      * apply Z.leb_le in E. rewrite Forall_forall in Hx.
        specialize (Hx y Hy). lia.
    + simpl. destruct (f x) eqn:Ex.
      * rewrite IH. destruct (f b); [| reflexivity].
        simpl. now rewrite E.
      * exact IH.
  Qed.

Lemma order_desc_filter (f : Bookmark -> bool) l :
  filter f (order_desc l) = order_desc (filter f l).
Proof.
  induction l as [| b l IH]; [reflexivity |].
  simpl. rewrite insert_desc_filter by apply order_desc_sorted.
  rewrite IH. destruct (f b); reflexivity.
Qed.

Lemma order_desc_newest b l :
  (forall x, In x l -> (created_at x < created_at b)%Z) ->
  order_desc (l ++ [b]) = b :: order_desc l.
Proof.
  induction l as [| x l IH]; intros H; [reflexivity |].
  simpl. rewrite IH by (intros y Hy; apply H; simpl; auto).
  simpl. assert (Hx : (created_at x < created_at b)%Z) by (apply H; simpl; auto).
  apply Z.leb_gt in Hx. now rewrite Hx.
Qed.

Lemma insert_desc_perm b l : Permutation (insert_desc b l) (b :: l).
Proof.
  induction l as [| x l IH]; simpl; [apply Permutation_refl |].
  destruct (created_at x <=? created_at b)%Z; [apply Permutation_refl |].
  eapply perm_trans; [apply perm_skip, IH | apply perm_swap].
Qed.

Lemma order_desc_perm l : Permutation (order_desc l) l.
Proof.
  induction l as [| b l IH]; simpl; [constructor |].
  eapply perm_trans; [apply insert_desc_perm | now apply perm_skip].
Qed.

Lemma visible_after_delete uid i table :
  filter (visible uid) (Db.delete uid i table)
  = removeById i (filter (visible uid) table).
Proof.
  rewrite removeById_filter. unfold Db.delete, Db.delete_policy, visible.
  induction table as [| b table IH]; [reflexivity |].
  simpl. destruct (String.eqb uid (user_id b)) eqn:Eu;
    destruct (String.eqb (id b) i) eqn:Ei; simpl;
    rewrite ?Eu, ?Ei; simpl; rewrite IH; reflexivity.
Qed.

Lemma invisible_after_delete uid uid' i table :
  uid <> uid' ->
  filter (visible uid') (Db.delete uid i table) = filter (visible uid') table.
Proof.
  intros Hne. unfold Db.delete, Db.delete_policy, visible.
  induction table as [| b table IH]; [reflexivity |].
  simpl. destruct (String.eqb uid' (user_id b)) eqn:Eu'.
  - apply String.eqb_eq in Eu'.
    assert (Eu : String.eqb uid (user_id b) = false)
      by (apply String.eqb_neq; congruence).
    rewrite Eu, andb_false_r. simpl.
    rewrite (proj2 (String.eqb_eq _ _) Eu'). now rewrite IH.
  - destruct (negb _); simpl; rewrite ?Eu', IH; reflexivity.
Qed.

Lemma insert_inv uid row new_id now table table' :
  Db.insert uid row new_id now table = Some table' ->
  row_user_id row = uid
  /\ ~ In new_id (ids table)
  /\ table' = table ++ [mkBookmark new_id uid (row_title row) (row_url row) now].
Proof.
  unfold Db.insert, Db.insert_policy.
  destruct (String.eqb uid (row_user_id row)) eqn:Eu; simpl; [| discriminate].
  destruct (existsb _ table) eqn:Ex; [discriminate |].
  intros H. injection H as <-. apply String.eqb_eq in Eu.
  split; [congruence |]. split; [| now rewrite <- Eu].
  intros Hin. apply existsb_id_In in Hin. congruence.
Qed.

End DbLemmas.

(** X12: no user changes what another user sees.  A delete or an
    accepted insert made by one user leaves the snapshot the page fetches
    for any other user as it was; and an insert whose owner is not the
    user who makes it is refused. *)
Theorem other_users_unaffected (uid uid' : string) (table : list Bookmark) :
  uid <> uid' ->
  (forall i,
      DashboardPage.select_bookmarks uid' (Db.delete uid i table)
      = DashboardPage.select_bookmarks uid' table)
  /\ (forall row new_id now table',
        Db.insert uid row new_id now table = Some table' ->
        DashboardPage.select_bookmarks uid' table'
        = DashboardPage.select_bookmarks uid' table)
  /\ (forall row new_id now,
        row_user_id row = uid' -> Db.insert uid row new_id now table = None).
Proof.
  intros Hne. unfold DashboardPage.select_bookmarks. split; [| split].
  - intros i. now rewrite invisible_after_delete.
  - intros row new_id now table' H.
    apply insert_inv in H. destruct H as [_ [_ ->]].
    rewrite filter_app. simpl. unfold DashboardPage.visible at 2. simpl.
    assert (E : String.eqb uid' uid = false)
      by (apply String.eqb_neq; congruence).
    now rewrite E, app_nil_r.
  - intros row new_id now Hrow. unfold Db.insert, Db.insert_policy.
    assert (E : String.eqb uid (row_user_id row) = false)
      by (apply String.eqb_neq; congruence).
    now rewrite E.
Qed.

Lemma other_users_unaffected_witness :
  DashboardPage.select_bookmarks "v" (Db.delete "u" "a" [rec_A; rec_B])
  = DashboardPage.select_bookmarks "v" [rec_A; rec_B].
Proof.
  assert (H : "u" <> "v") by discriminate.
  exact (proj1 (other_users_unaffected "u" "v" [rec_A; rec_B] H) "a").
Defined.

(** X13: the list kept by events agrees with a fresh fetch.  After a
    delete of the user, the snapshot of the table is the previous
    snapshot with [removeById] applied; after an accepted insert whose
    timestamp is later than that of every row of the user, it is the
    previous snapshot with [upsertIfAbsent] applied to the new row. *)
Theorem list_agrees_with_refetch (uid : string) (table : list Bookmark) :
  (forall i,
      DashboardPage.initialBookmarks
        (DashboardPage.select_bookmarks uid (Db.delete uid i table))
      = removeById i (DashboardPage.initialBookmarks
                        (DashboardPage.select_bookmarks uid table)))
  /\ (forall row new_id now table',
        Db.insert uid row new_id now table = Some table' ->
        (forall b, In b table -> user_id b = uid -> (created_at b < now)%Z) ->
        DashboardPage.initialBookmarks
          (DashboardPage.select_bookmarks uid table')
        = upsertIfAbsent
            (mkBookmark new_id uid (row_title row) (row_url row) now)
            (DashboardPage.initialBookmarks
               (DashboardPage.select_bookmarks uid table))).
Proof.
  unfold DashboardPage.select_bookmarks, DashboardPage.initialBookmarks.
  split.
  - intros i. rewrite visible_after_delete, !removeById_filter.
    symmetry. apply order_desc_filter.
  - intros row new_id now table' H Hnew.
    apply insert_inv in H. destruct H as [_ [Hfresh ->]].
    rewrite filter_app. simpl. unfold DashboardPage.visible at 2. simpl.
    rewrite String.eqb_refl.
    rewrite order_desc_newest.
    + symmetry. apply upsert_absent. simpl. intros Hin. apply Hfresh.
      unfold ids in *. rewrite in_map_iff in *.
      destruct Hin as [b [E Hb]]. exists b. split; [assumption |].
      apply order_desc_In, filter_In in Hb. tauto.
    + intros x Hx. apply filter_In in Hx. destruct Hx as [Hx Hv].
      simpl. apply Hnew; [assumption |].
      unfold DashboardPage.visible in Hv. apply String.eqb_eq in Hv. congruence.
Qed.

Lemma list_agrees_with_refetch_witness :
  DashboardPage.initialBookmarks
    (DashboardPage.select_bookmarks "u"
       ([rec_A; rec_B] ++ [mkBookmark "n" "u" "New" "https://n.example" 50]))
  = upsertIfAbsent (mkBookmark "n" "u" "New" "https://n.example" 50)
      (DashboardPage.initialBookmarks
         (DashboardPage.select_bookmarks "u" [rec_A; rec_B])).
Proof.
  apply (proj2 (list_agrees_with_refetch "u" [rec_A; rec_B])
           (mkInsertRow "New" "https://n.example" "u") "n" 50%Z).
  - reflexivity.
  - intros b [<- | [<- | []]] _; simpl; lia.
Defined.

(** X14: identifiers stay unique from the table to the list.  In a table
    whose identifiers are pairwise distinct, an accepted insert and a
    delete keep them so (an insert under an identifier already taken is
    refused), and the snapshot the page fetches from it has pairwise
    distinct identifiers. *)
Theorem table_ids_distinct (uid : string) (table : list Bookmark) :
  NoDup (ids table) ->
  NoDup (ids (DashboardPage.initialBookmarks
                (DashboardPage.select_bookmarks uid table)))
  /\ (forall i, NoDup (ids (Db.delete uid i table)))
  /\ (forall row new_id now table',
        Db.insert uid row new_id now table = Some table' ->
        NoDup (ids table'))
  /\ (forall row new_id now,
        In new_id (ids table) -> Db.insert uid row new_id now table = None).
Proof.
  intros Hnd. split; [| split; [| split]].
  - simpl. apply (Permutation_NoDup (l := ids (filter (DashboardPage.visible uid) table))).
    + unfold ids. apply Permutation_map, Permutation_sym, order_desc_perm.
    + now apply filter_NoDup_ids.
  - intros i. now apply filter_NoDup_ids.
  - intros row new_id now table' H.
    apply insert_inv in H. destruct H as [_ [Hfresh ->]].
    unfold ids. rewrite map_app. simpl.
    apply (Permutation_NoDup (l := new_id :: map id table)).
    + apply Permutation_cons_append.
    + now constructor.
  - intros row new_id now Hin. unfold Db.insert.
    destruct (negb (Db.insert_policy uid row)); [reflexivity |].
    apply existsb_id_In in Hin. now rewrite Hin.
Qed.

Lemma table_ids_distinct_witness :
  NoDup (ids (DashboardPage.initialBookmarks
                (DashboardPage.select_bookmarks "u" [rec_A; rec_B]))).
Proof.
  apply table_ids_distinct.
  simpl. repeat constructor; simpl; intuition discriminate.
Defined.

(* ================================================================== *)
(** ** Deleting from a card *)

Section CardDeleteLemmas.

Import CardDelete.

Lemma step_consistent (i : string) (c : Card) (e : CardEvent) :
  consistent c -> consistent (fst (step i c e)).
Proof.
  unfold consistent. destruct c as [d sc n]. simpl.
  intros [[-> ->] | [-> ->]]; destruct e; destruct sc; simpl; auto.
Qed.

Lemma step_requests (i : string) (c : Card) (e : CardEvent) :
  snd (step i c e) = [] \/ snd (step i c e) = [Delete i].
Proof.
  destruct c as [d sc n]. destruct e; simpl;
    try (destruct sc; simpl; auto; fail).
  - destruct sc; destruct d; simpl; auto.
  - destruct n; simpl; auto.
Qed.

Lemma step_budget (i : string) (c : Card) (e : CardEvent) :
  List.length (snd (step i c e)) + armed (fst (step i c e))
  <= armed c + delete_clicks [e].
Proof.
  destruct c as [d sc n]. unfold armed, delete_clicks.
  destruct e; destruct sc; destruct d; simpl; try lia; destruct n; simpl; lia.
Qed.

Lemma delete_clicks_cons (e : CardEvent) (es : list CardEvent) :
  delete_clicks (e :: es) = delete_clicks [e] + delete_clicks es.
Proof. unfold delete_clicks. simpl. destruct e; reflexivity. Qed.

Lemma run_invariants (i : string) (es : list CardEvent) (c : Card) :
  consistent c ->
  consistent (fst (run i c es))
  /\ Forall (fun r => r = Delete i) (snd (run i c es))
  /\ List.length (snd (run i c es)) + armed (fst (run i c es))
     <= armed c + delete_clicks es.
Proof.
  revert c. induction es as [| e es IH]; intros c Hc.
  - simpl. split; [assumption |]. split; [constructor |].
    unfold delete_clicks. simpl. lia.
  - simpl. pose proof (step_consistent i c e Hc) as Hc1.
    pose proof (step_requests i c e) as Hr.
    pose proof (step_budget i c e) as Hb.
    destruct (step i c e) as [c1 r1]. simpl in *.
    specialize (IH c1 Hc1). destruct (run i c1 es) as [c2 r2]. simpl in *.
    destruct IH as [H1 [H2 H3]].
    split; [assumption |]. split.
    + apply Forall_app. split; [| assumption].
      destruct Hr as [-> | ->]; repeat constructor.
    + rewrite length_app, delete_clicks_cons. lia.
Qed.

End CardDeleteLemmas.

(** X15: a card never deletes without confirmation.  Over any sequence of
    clicks and returns of the delete call, starting from the card as first
    rendered, every call made is a delete of the card's own bookmark;
    there are at most as many calls as clicks on the delete button (each
    call needs the confirm button brought up anew); at most one call is in
    flight at any time, exactly while the card shows itself as deleting;
    and when the last call has returned without further clicks, the card
    is back to how it was first rendered. *)
Theorem card_delete_needs_confirmation
  (i : string) (es : list CardDelete.CardEvent) :
  Forall (fun r => r = Delete i) (snd (CardDelete.run i CardDelete.initial es))
  /\ List.length (snd (CardDelete.run i CardDelete.initial es))
     <= CardDelete.delete_clicks es
  /\ CardDelete.in_flight (fst (CardDelete.run i CardDelete.initial es)) <= 1
  /\ (CardDelete.isDeleting (fst (CardDelete.run i CardDelete.initial es)) = true
      <-> CardDelete.in_flight (fst (CardDelete.run i CardDelete.initial es)) = 1)
  /\ (CardDelete.in_flight (fst (CardDelete.run i CardDelete.initial es)) = 1 ->
      fst (CardDelete.step i (fst (CardDelete.run i CardDelete.initial es))
             CardDelete.DeleteReturned)
      = CardDelete.initial).
Proof.
  assert (H0 : CardDelete.consistent CardDelete.initial) by (right; auto).
  destruct (run_invariants i es CardDelete.initial H0) as [Hc [Hr Hb]].
  split; [exact Hr |]. split; [unfold CardDelete.armed in Hb at 2; simpl in Hb; lia |].
  destruct (fst (CardDelete.run i CardDelete.initial es)) as [d sc n].
  unfold CardDelete.consistent in Hc. simpl in *.
  destruct Hc as [[-> ->] | [-> ->]].
  - split; [lia |]. split; [tauto |]. reflexivity.
  - split; [lia |]. split; [split; discriminate |]. discriminate.
Qed.

Lemma card_delete_needs_confirmation_witness :
  fst (CardDelete.step "a"
         (fst (CardDelete.run "a" CardDelete.initial
                 [CardDelete.ClickConfirm; CardDelete.ClickDelete;
                  CardDelete.ClickConfirm; CardDelete.ClickConfirm]))
         CardDelete.DeleteReturned)
  = CardDelete.initial.
Proof.
  destruct (card_delete_needs_confirmation "a"
              [CardDelete.ClickConfirm; CardDelete.ClickDelete;
               CardDelete.ClickConfirm; CardDelete.ClickConfirm])
    as [_ [_ [_ [_ H]]]].
  apply H. reflexivity.
Defined.

(* ================================================================== *)
(** ** What the address check of the add handler can reject *)

Section AddressLemmas.

Variable host_parser : string -> bool.

Lemma strip_trailing_cons (c : ascii) (s : string) :
  URL.is_c0_or_space c = false ->
  URL.strip_trailing (String c s) = String c (URL.strip_trailing s).
Proof.
  intros H. simpl. rewrite H. now destruct (URL.strip_trailing s).
Qed.

Lemma finalUrl_prefix (st : State) :
  (exists post, finalUrl st = ("http://" ++ post)%string)
  \/ (exists post, finalUrl st = ("https://" ++ post)%string).
Proof.
  unfold finalUrl.
  destruct (Js.startsWith (Js.trim (urlInput st)) "http://") eqn:E1;
    cbn [negb andb]; [left; now apply startsWith_prefix |].
  destruct (Js.startsWith (Js.trim (urlInput st)) "https://") eqn:E2;
    cbn [negb andb]; [right; now apply startsWith_prefix |].
  right. now exists (Js.trim (urlInput st)).
Qed.

Lemma finalUrl_protocol (st : State) :
  exists rest scheme,
    (scheme = "http:" \/ scheme = "https:")
    /\ forall po,
        URL.protocol host_parser po (finalUrl st)
        = if URL.parse_http host_parser rest then Some scheme else None.
Proof.
  destruct (finalUrl_prefix st) as [[post ->] | [post ->]].
  - exists ("//" ++ URL.remove_tab_newline (URL.strip_trailing post))%string,
      "http:". split; [auto |]. intros po.
    unfold URL.protocol.
    change (URL.strip_leading ("http://" ++ post)) with ("http://" ++ post)%string.
    change ("http://" ++ post)%string
      with (String "h" (String "t" (String "t" (String "p" (String ":"
              (String "/" (String "/" post))))))).
    rewrite !strip_trailing_cons by reflexivity. reflexivity.
  - exists ("//" ++ URL.remove_tab_newline (URL.strip_trailing post))%string,
      "https:". split; [auto |]. intros po.
    unfold URL.protocol.
    change (URL.strip_leading ("https://" ++ post)) with ("https://" ++ post)%string.
    change ("https://" ++ post)%string
      with (String "h" (String "t" (String "t" (String "p" (String "s"
              (String ":" (String "/" (String "/" post)))))))).
    rewrite !strip_trailing_cons by reflexivity. reflexivity.
Qed.

End AddressLemmas.

(** X16: in the add handler the address check rejects an address exactly
    when the URL constructor throws on the normalized text: the comparison
    of the protocol with "http:" and "https:" never rejects anything
    there, because the normalized text always starts with one of the two
    schemes.  So the protocol of every accepted address is "http:" or
    "https:", and whether an address is accepted does not depend on what
    the platform does with other schemes. *)
Theorem address_rejected_only_when_unparsable
  (host_parser : string -> bool) (parse_other parse_other' : string -> string -> bool)
  (st : State) :
  (isValidUrl host_parser parse_other (finalUrl st) = false
   <-> URL.protocol host_parser parse_other (finalUrl st) = None)
  /\ (forall p, URL.protocol host_parser parse_other (finalUrl st) = Some p ->
                p = "http:" \/ p = "https:")
  /\ isValidUrl host_parser parse_other (finalUrl st)
     = isValidUrl host_parser parse_other' (finalUrl st).
Proof.
  destruct (finalUrl_protocol host_parser st) as [rest [scheme [Hs H]]].
  unfold isValidUrl. rewrite !H.
  destruct (URL.parse_http host_parser rest).
  - split; [| split; [| reflexivity]].
    + destruct Hs as [-> | ->]; simpl; split; discriminate.
    + intros p E. injection E as <-. exact Hs.
  - split; [tauto |]. split; [discriminate | reflexivity].
Qed.
